(** * KeyCloakReact: the Admin-API orchestration layer

    A shallow embedding of
    - [KeycloakAdminService] (src/services/keycloakAdmin.js): [_request] and
      the REST operations built on it;
    - [UserManager] (src/components/UserManager.jsx): [loadUsers],
      [performCreate], [performUpdate];
    - [AuditLog] (src/components/AuditLog.jsx): the paging controls.

    JavaScript values are a small untyped universe with the run-time checks of
    the language written out ([TypeError] on a property of [null], ...).
    Asynchronous code is a state-and-exception monad over a [World] that holds
    the Keycloak adapter, the React state and the log of everything the code
    did to the outside (token refreshes, HTTP calls, console warnings, alerts).
    The adapter and the remote server are parameters: an [Env]. *)

From Stdlib Require Import ZArith String Ascii List Bool Lia DecimalString.
From Stdlib Require DecimalPos.
From stdpp Require Import base tactics option list strings gmap.

Local Open Scope Z_scope.
Local Open Scope string_scope.
Local Open Scope list_scope.

(** ** JavaScript values *)

Set Warnings "-register-all".

Module Js.

(** Numbers are the integers (counts, offsets and HTTP status codes are the
    only numbers the program computes with). *)
Inductive value : Type :=
| VUndefined
| VNull
| VBool (b : bool)
| VNum (n : Z)
| VStr (s : string)
| VArr (items : list value)
| VObj (props : list (string * value)).

(** What a statement or an [await] can throw. [Rejected] is a promise of a
    collaborator rejected with an arbitrary reason. *)
Inductive exn : Type :=
| Error (message : string)
| TypeError
| SyntaxError
| Rejected (reason : value).

Inductive result (A : Type) : Type :=
| Ok (a : A)
| Throw (e : exn).
Arguments Ok {A} a.
Arguments Throw {A} e.

(** ToBoolean. *)
Definition truthy (v : value) : bool :=
  match v with
  | VUndefined | VNull => false
  | VBool b => b
  | VNum n => negb (n =? 0)%Z
  | VStr s => negb (String.eqb s "")
  | VArr _ | VObj _ => true
  end.

(** The decimal text of a number. A number is modelled as the integer it
    holds, and this is the text JavaScript prints for it when it is a safe
    integer (at most 2^53 - 1 in absolute value). A larger double prints
    rounded, and with an exponent from 10^21 on: that is not modelled. *)
Definition string_of_Z (n : Z) : string := NilZero.string_of_int (Z.to_int n).

(** ToString, as a template literal or a string concatenation applies it. *)
Fixpoint to_string (v : value) : string :=
  match v with
  | VUndefined => "undefined"
  | VNull => "null"
  | VBool true => "true"
  | VBool false => "false"
  | VNum n => string_of_Z n
  | VStr s => s
  | VArr items =>
      (fix join (l : list value) : string :=
         match l with
         | [] => ""
         | x :: rest =>
             let sx := match x with
                       | VUndefined | VNull => ""
                       | _ => to_string x
                       end in
             match rest with
             | [] => sx
             | _ :: _ => sx +:+ "," +:+ join rest
             end
         end) items
  | VObj _ => "[object Object]"
  end.

Fixpoint lookup_prop (props : list (string * value)) (k : string) : value :=
  match props with
  | [] => VUndefined
  | (k', v) :: rest => if String.eqb k' k then v else lookup_prop rest k
  end.

(** [v.k] for a data key [k] ([id], [name], [username], [realmRoles]: no
    prototype defines them): a [TypeError] on [undefined] and [null], the own
    property of an object, [undefined] on everything else. *)
Definition get (v : value) (k : string) : result value :=
  match v with
  | VUndefined | VNull => Throw TypeError
  | VObj props => Ok (lookup_prop props k)
  | _ => Ok VUndefined
  end.

(** SameValueZero, which is also [===] here (no NaN). Two arrays or two
    objects are the same only when they are the same allocation; the values
    the program compares come from different responses, so never are. *)
Definition same_value (a b : value) : bool :=
  match a, b with
  | VUndefined, VUndefined => true
  | VNull, VNull => true
  | VBool x, VBool y => Bool.eqb x y
  | VNum x, VNum y => (x =? y)%Z
  | VStr x, VStr y => String.eqb x y
  | _, _ => false
  end.

(** [arr.includes(v)]. *)
Definition includes (arr : list value) (v : value) : bool :=
  existsb (same_value v) arr.

(** [v.map], [v.filter], [v.find] exist on arrays only; calling them on
    anything else is a [TypeError]. *)
Definition as_array (v : value) : result (list value) :=
  match v with
  | VArr items => Ok items
  | _ => Throw TypeError
  end.

(** The own enumerable properties that [{...v}] copies. *)
Fixpoint index_props (i : nat) (items : list value) : list (string * value) :=
  match items with
  | [] => []
  | x :: rest => (string_of_Z (Z.of_nat i), x) :: index_props (S i) rest
  end.

Fixpoint chars (s : string) : list value :=
  match s with
  | EmptyString => []
  | String c rest => VStr (String c EmptyString) :: chars rest
  end.

Definition spread (v : value) : list (string * value) :=
  match v with
  | VObj props => props
  | VArr items => index_props 0 items
  | VStr s => index_props 0 (chars s)
  | _ => []
  end.

(** [{...obj, k: v}] for a key [k] that is not an array index: an existing
    key keeps its place, a new one goes last. *)
Fixpoint set_prop (props : list (string * value)) (k : string) (v : value)
  : list (string * value) :=
  match props with
  | [] => [(k, v)]
  | (k', v') :: rest =>
      if String.eqb k' k then (k, v) :: rest else (k', v') :: set_prop rest k v
  end.

End Js.
Export Js.


(** ** The world outside the program *)

Module Eff.

(** The [keycloak] adapter object as the service reads it: the bearer token
    ([None] is [undefined]) and, as ghost state, the seconds the token still
    has to live. *)
Record Keycloak : Type := {
  token : option string;
  expires_in : Z;
}.

(** The second argument of [fetch]: [{...options, headers}]. *)
Record Request : Type := {
  url : string;
  method : option string;
  headers : list (string * string);
  body : option string;
}.

(** A [Response]: [status], [headers.get("content-length")], what [text()]
    resolves to and what [json()] resolves to ([None]: it rejects, the body
    is not JSON). [ok] is true for the statuses 200 to 299. *)
Record Response : Type := {
  status : Z;
  content_length : option string;
  text : string;
  json : option value;
}.

Definition ok (r : Response) : bool :=
  (200 <=? status r)%Z && (status r <=? 299)%Z.

(** Everything the program does to the outside, in order. [Fetch] records the
    request together with the remaining lifetime of the credential at the
    moment the request leaves. *)
Inductive event : Type :=
| UpdateToken (minValidity : Z)
| Fetch (req : Request) (lifetime : Z)
| ReadText
| ReadJson
| ConsoleWarn (message : string) (e : exn)
| Alert (message : string).

(** The collaborators. [updateToken] is the adapter's refresh: from the
    history and the adapter it rejects or yields the adapter after the call.
    [serve] is the network and the remote service: from the history and the
    request, the seconds the round trip takes and a response, or a rejection
    of [fetch]. [JSON_stringify] is the platform's serialiser. *)
Record Env : Type := {
  authServerUrl : string;
  realm : string;
  updateToken : list event -> Z -> Keycloak -> exn + Keycloak;
  serve : list event -> Request -> Z * (exn + Response);
  JSON_stringify : value -> string;
}.

(** The form of the user modal. [selectedRoles] is the object used as a map
    from role name to boolean. *)
Record FormData : Type := {
  username : string;
  email : string;
  password : string;
  selectedRoles : gmap string bool;
}.

(** The React state of [UserManager]. [totalUsers] is a number: [None] is
    NaN. *)
Record Component : Type := {
  users : list value;
  availableRoles : list value;
  editingUser : value;
  page : Z;
  pageSize : Z;
  totalUsers : option Z;
  formData : FormData;
}.

Record World : Type := {
  keycloak : Keycloak;
  trace : list event;
  ui : Component;
}.

(** An asynchronous function: it runs in a world, returns or throws, and
    leaves a world. *)
Definition M (A : Type) : Type := World -> result A * World.

Definition ret {A} (a : A) : M A := fun w => (Ok a, w).

Definition throw {A} (e : exn) : M A := fun w => (Throw e, w).

Definition bind {A B} (m : M A) (k : A -> M B) : M B :=
  fun w =>
    match m w with
    | (Ok a, w') => k a w'
    | (Throw e, w') => (Throw e, w')
    end.

(** [try { m } catch (e) { h e }]. *)
Definition try_catch {A} (m : M A) (h : exn -> M A) : M A :=
  fun w =>
    match m w with
    | (Ok a, w') => (Ok a, w')
    | (Throw e, w') => h e w'
    end.

(** A synchronous step that may throw. *)
Definition lift {A} (r : result A) : M A := fun w => (r, w).

Definition log (e : event) : M unit :=
  fun w => (Ok tt, {| keycloak := keycloak w; trace := (trace w ++ [e])%list; ui := ui w |}).

Definition get_keycloak : M Keycloak := fun w => (Ok (keycloak w), w).

Definition set_ui (f : Component -> Component) : M unit :=
  fun w => (Ok tt, {| keycloak := keycloak w; trace := trace w; ui := f (ui w) |}).

(** [Promise.all]: every promise of the list has been started, so all of them
    run; the result is the list of their values, or the rejection of the
    first of them that rejects. The promises run here one after the other, in
    the order of the list: how the steps of concurrent promises interleave is
    not modelled. *)
Fixpoint Promise_all {A} (ms : list (M A)) : M (list A) :=
  match ms with
  | [] => ret []
  | m :: rest =>
      fun w =>
        match m w with
        | (Ok a, w1) =>
            match Promise_all rest w1 with
            | (Ok l, w2) => (Ok (a :: l), w2)
            | (Throw e, w2) => (Throw e, w2)
            end
        | (Throw e, w1) => (Throw e, snd (Promise_all rest w1))
        end
  end.

(** [Promise.all] of two promises of different types. As in [Promise_all]
    they run here in the order of the list, and the rejection reported is
    that of the first of the list that rejects; in the program it is that of
    the first to reject in time. *)
Definition Promise_all2 {A B} (ma : M A) (mb : M B) : M (A * B) :=
  fun w =>
    match ma w with
    | (Ok a, w1) =>
        match mb w1 with
        | (Ok b, w2) => (Ok (a, b), w2)
        | (Throw e, w2) => (Throw e, w2)
        end
    | (Throw e, w1) => (Throw e, snd (mb w1))
    end.

End Eff.
Export Eff.

(** [let* x := m in k] is [const x = await m; k]. *)
Notation "'let*' x := m 'in' k" := (bind m (fun x => k))
  (at level 10, x name, m at level 200, k at level 200).

(** ** src/services/keycloakAdmin.js *)

Module KeycloakAdminService.

(** The [options] argument of [_request]. No caller passes [headers]; an
    empty list is their absence. *)
Record Options : Type := {
  opt_method : option string;
  opt_headers : list (string * string);
  opt_body : option string;
}.

(** [options = {}]. *)
Definition no_options : Options :=
  {| opt_method := None; opt_headers := []; opt_body := None |}.

(** [s.replace(/\/$/, "")]: one slash at the very end is removed. *)
Fixpoint strip_trailing_slash (s : string) : string :=
  match s with
  | EmptyString => EmptyString
  | String c rest =>
      match rest with
      | EmptyString => if Ascii.eqb c "/" then EmptyString else s
      | String _ _ => String c (strip_trailing_slash rest)
      end
  end.

(** A key of an object literal set again by a spread keeps its place. *)
Fixpoint set_header (hs : list (string * string)) (k v : string)
  : list (string * string) :=
  match hs with
  | [] => [(k, v)]
  | (k', v') :: rest =>
      if String.eqb k' k then (k, v) :: rest else (k', v') :: set_header rest k v
  end.

Definition spread_headers (base extra : list (string * string))
  : list (string * string) :=
  fold_left (fun hs kv => set_header hs (fst kv) (snd kv)) extra base.

(** [`${this.keycloak.token}`]. *)
Definition token_string (t : option string) : string :=
  match t with
  | Some s => s
  | None => "undefined"
  end.

(** [!this.keycloak.token]. *)
Definition no_token (t : option string) : bool :=
  match t with
  | Some s => String.eqb s ""
  | None => true
  end.

Definition access_denied_message : string :=
  "Access Denied: You likely need 'realm-admin' or 'manage-users' role.".

Definition conflict_message : string :=
  "Conflict: User or resource already exists.".

Definition api_error_message (st : Z) (txt : string) : string :=
  "API Error " +:+ string_of_Z st +:+ ": " +:+ txt.

(** [parseInt(v)]: leading (ASCII) white space, a sign, an optional [0x],
    then the longest run of digits; [None] is NaN. *)
Definition is_space (c : ascii) : bool :=
  let n := nat_of_ascii c in
  ((9 <=? n)%nat && (n <=? 13)%nat) || (n =? 32)%nat.

Fixpoint skip_spaces (s : string) : string :=
  match s with
  | String c rest => if is_space c then skip_spaces rest else s
  | EmptyString => s
  end.

Definition digit_value (radix : Z) (c : ascii) : option Z :=
  let n := Z.of_nat (nat_of_ascii c) in
  let d := if (48 <=? n)%Z && (n <=? 57)%Z then n - 48
           else if (97 <=? n)%Z && (n <=? 122)%Z then n - 87
           else if (65 <=? n)%Z && (n <=? 90)%Z then n - 55
           else radix in
  if (d <? radix)%Z then Some d else None.

Fixpoint digits (radix : Z) (s : string) (acc : option Z) : option Z :=
  match s with
  | EmptyString => acc
  | String c rest =>
      match digit_value radix c with
      | Some d => digits radix rest (Some (default 0 acc * radix + d))
      | None => acc
      end
  end.

(** The result is exact when it is a safe integer; the rounding of a longer
    run of digits to a double is not modelled. *)
Definition parseInt (v : value) : option Z :=
  let s := skip_spaces (to_string v) in
  let '(sign, s) :=
    match s with
    | String "-" rest => (-1, rest)
    | String "+" rest => (1, rest)
    | _ => (1, s)
    end in
  let '(radix, s) :=
    match s with
    | String "0" (String "x" rest) | String "0" (String "X" rest) => (16, rest)
    | _ => (10, s)
    end in
  (fun n => sign * n) <$> digits radix s None.

(** [URLSearchParams.toString()]: the form-urlencoded serialiser, byte by
    byte. *)
Definition hex_digit (n : nat) : ascii :=
  ascii_of_nat (if (n <? 10)%nat then 48 + n else 55 + n)%nat.

Definition form_encode_byte (c : ascii) : string :=
  let n := nat_of_ascii c in
  if ((48 <=? n) && (n <=? 57) || (65 <=? n) && (n <=? 90)
      || (97 <=? n) && (n <=? 122)
      || (n =? 42) || (n =? 45) || (n =? 46) || (n =? 95))%nat
  then String c EmptyString
  else if (n =? 32)%nat then "+"
  else String "%" (String (hex_digit (n / 16)) (String (hex_digit (n mod 16)) EmptyString)).

Fixpoint form_encode (s : string) : string :=
  match s with
  | EmptyString => EmptyString
  | String c rest => form_encode_byte c +:+ form_encode rest
  end.

Fixpoint URLSearchParams_toString (params : list (string * string)) : string :=
  match params with
  | [] => ""
  | (k, v) :: rest =>
      let kv := form_encode k +:+ "=" +:+ form_encode v in
      match rest with
      | [] => kv
      | _ :: _ => kv +:+ "&" +:+ URLSearchParams_toString rest
      end
  end.

Section Service.

Variable env : Env.

(** [this.baseUrl], set by the constructor. *)
Definition baseUrl : string :=
  strip_trailing_slash (authServerUrl env) +:+ "/admin/realms/" +:+ realm env.

(** [await this.keycloak.updateToken(minValidity)]. *)
Definition keycloak_updateToken (minValidity : Z) : M unit :=
  fun w =>
    let w1 := {| keycloak := keycloak w;
                 trace := (trace w ++ [UpdateToken minValidity])%list;
                 ui := ui w |} in
    match updateToken env (trace w) minValidity (keycloak w) with
    | inl e => (Throw e, w1)
    | inr k => (Ok tt, {| keycloak := k; trace := trace w1; ui := ui w1 |})
    end.

(** [await fetch(url, config)]: the request leaves, time passes, the response
    arrives or the promise rejects. *)
Definition fetch (req : Request) : M Response :=
  fun w =>
    let k := keycloak w in
    let '(dt, answer) := serve env (trace w) req in
    let w1 := {| keycloak := {| token := token k; expires_in := expires_in k - dt |};
                 trace := (trace w ++ [Fetch req (expires_in k)])%list;
                 ui := ui w |} in
    match answer with
    | inl e => (Throw e, w1)
    | inr r => (Ok r, w1)
    end.

(** [await response.text()]. *)
Definition response_text (r : Response) : M string :=
  let* _ := log ReadText in ret (text r).

(** [await response.json()]. *)
Definition response_json (r : Response) : M value :=
  let* _ := log ReadJson in
  match json r with
  | Some v => ret v
  | None => throw SyntaxError
  end.

(** The [url] and the [config] handed to [fetch], with the token the adapter
    [k] holds. *)
Definition request_config (endpoint : string) (options : Options) (k : Keycloak)
  : Request :=
  let url := baseUrl +:+ endpoint in
  let headers :=
    spread_headers
      [("Authorization", "Bearer " +:+ token_string (token k));
       ("Content-Type", "application/json")]
      (opt_headers options) in
  {| url := url; method := opt_method options;
     headers := headers; body := opt_body options |}.

Definition _request (endpoint : string) (options : Options) : M value :=
  let* k := get_keycloak in
  if no_token (token k) then throw (Error "No active token") else
  (* Ensure token is valid (refresh if needed, with 30s buffer) *)
  let* _ := keycloak_updateToken 30 in
  let* k := get_keycloak in
  let* response := fetch (request_config endpoint options k) in
  if negb (ok response) then
    if (status response =? 403)%Z then throw (Error access_denied_message)
    else if (status response =? 409)%Z then throw (Error conflict_message)
    else
      let* txt := response_text response in
      throw (Error (api_error_message (status response) txt))
  else
  (* Return JSON if content exists, otherwise null *)
  let contentLength := content_length response in
  if bool_decide (contentLength = Some "0") || (status response =? 204)%Z
  then ret VNull
  else try_catch (response_json response) (fun e => ret VNull).

(** [getUsers(first = 0, max = 10)]. *)
Definition getUsers (first max : Z) : M value :=
  _request ("/users?first=" +:+ string_of_Z first +:+ "&max=" +:+ string_of_Z max)
           no_options.

Definition getUsersCount : M (option Z) :=
  let* count := _request "/users/count" no_options in
  ret (if truthy count then parseInt count else Some 0).

Definition default_event_types : list string := ["LOGIN"; "LOGOUT"; "LOGIN_ERROR"].

(** [getEvents(first = 0, max = 10, types = [...])]. *)
Definition getEvents (first max : Z) (types : list string) : M value :=
  let params :=
    ([("first", string_of_Z first); ("max", string_of_Z max)]
     ++ map (fun t => ("type", t)) types)%list in
  _request ("/events?" +:+ URLSearchParams_toString params) no_options.

Definition createUser (userData : value) : M value :=
  _request "/users"
    {| opt_method := Some "POST"; opt_headers := [];
       opt_body := Some (JSON_stringify env userData) |}.

Definition resetPassword (userId : value) (newPassword : string) : M value :=
  let payload :=
    VObj [("type", VStr "password"); ("value", VStr newPassword);
          ("temporary", VBool false)] in
  _request ("/users/" +:+ to_string userId +:+ "/reset-password")
    {| opt_method := Some "PUT"; opt_headers := [];
       opt_body := Some (JSON_stringify env payload) |}.

Definition getRealmRoles : M value :=
  _request "/roles" no_options.

Definition getUserRealmRoles (userId : value) : M value :=
  let* roles := _request ("/users/" +:+ to_string userId +:+ "/role-mappings/realm")
                    no_options in
  ret (if truthy roles then roles else VArr []).

Definition addRealmRoleMappings (userId : value) (rolesArray : value) : M value :=
  _request ("/users/" +:+ to_string userId +:+ "/role-mappings/realm")
    {| opt_method := Some "POST"; opt_headers := [];
       opt_body := Some (JSON_stringify env rolesArray) |}.

Definition removeRealmRoleMappings (userId : value) (rolesArray : value) : M value :=
  _request ("/users/" +:+ to_string userId +:+ "/role-mappings/realm")
    {| opt_method := Some "DELETE"; opt_headers := [];
       opt_body := Some (JSON_stringify env rolesArray) |}.

Definition getRoleByName (roleName : value) : M value :=
  _request ("/roles/" +:+ to_string roleName) no_options.

End Service.

End KeycloakAdminService.
Export KeycloakAdminService.

(** ** src/components/UserManager.jsx *)

Module UserManager.

(** [arr.map(f)] and [arr.filter(p)] with a callback that may throw: the first
    exception ends the traversal. *)
Fixpoint map_result {A B} (f : A -> result B) (l : list A) : result (list B) :=
  match l with
  | [] => Ok []
  | x :: rest =>
      match f x with
      | Throw e => Throw e
      | Ok y =>
          match map_result f rest with
          | Throw e => Throw e
          | Ok ys => Ok (y :: ys)
          end
      end
  end.

Fixpoint filter_result {A} (p : A -> result bool) (l : list A) : result (list A) :=
  match l with
  | [] => Ok []
  | x :: rest =>
      match p x with
      | Throw e => Throw e
      | Ok b =>
          match filter_result p rest with
          | Throw e => Throw e
          | Ok ys => Ok (if b then x :: ys else ys)
          end
      end
  end.

(** [arr.find(p)]: the first element that satisfies [p], or [undefined]. *)
Fixpoint find_result (p : value -> result bool) (l : list value) : result value :=
  match l with
  | [] => Ok VUndefined
  | x :: rest =>
      match p x with
      | Throw e => Throw e
      | Ok true => Ok x
      | Ok false => find_result p rest
      end
  end.

(** [r => names.includes(r.name)]. *)
Definition name_in (names : list value) (r : value) : result bool :=
  match get r "name" with
  | Throw e => Throw e
  | Ok n => Ok (includes names n)
  end.

(** [Object.keys(selectedRoles)]; the order of the keys is not observable in
    what follows (membership and emptiness only). *)
Definition Object_keys (m : gmap string bool) : list string :=
  (map_to_list m).*1.

(** [Object.keys(selectedRoles).filter(r => selectedRoles[r])]. *)
Definition selected_names (m : gmap string bool) : list string :=
  List.filter (fun r => default false (m !! r)) (Object_keys m).

(** The names filtered out of every user's roles. *)
Definition noise (realm : string) : list value :=
  [VStr "offline_access"; VStr "uma_authorization"; VStr ("default-roles-" +:+ realm)].

(** [{ ...user, realmRoles: roles }]. *)
Definition with_realmRoles (user : value) (roles : list value) : value :=
  VObj (set_prop (spread user) "realmRoles" (VArr roles)).

Definition warn_message (uname : value) : string :=
  "Failed to fetch roles for user " +:+ to_string uname.

Definition setTotalUsers (n : option Z) (c : Component) : Component :=
  {| users := users c; availableRoles := availableRoles c;
     editingUser := editingUser c; page := page c; pageSize := pageSize c;
     totalUsers := n; formData := formData c |}.

Definition setUsers (us : list value) (c : Component) : Component :=
  {| users := us; availableRoles := availableRoles c;
     editingUser := editingUser c; page := page c; pageSize := pageSize c;
     totalUsers := totalUsers c; formData := formData c |}.

Section Component.

Variable env : Env.

(** The callback of [data.map] in [loadUsers]. *)
Definition enrich (user : value) : M value :=
  try_catch
    (let* id := lift (get user "id") in
     let* userRoles := getUserRealmRoles env id in
     let* roles := lift (as_array userRoles) in
     let* names := lift (map_result (fun r => get r "name") roles) in
     let meaningfulRoles :=
       List.filter (fun n => negb (includes (noise (realm env)) n)) names in
     ret (with_realmRoles user meaningfulRoles))
    (fun e =>
       let* uname := lift (get user "username") in
       let* _ := log (ConsoleWarn (warn_message uname) e) in
       ret (with_realmRoles user [])).

(** [c] is the state the closure was rendered with. *)
Definition loadUsers (c : Component) : M unit :=
  let first := page c * pageSize c in
  let* dc := Promise_all2 (getUsers env first (pageSize c)) (getUsersCount env) in
  let data := fst dc in
  let count := snd dc in
  let* _ := set_ui (setTotalUsers count) in
  (* Fetch roles for each user (Effective roles) *)
  let* items := lift (as_array data) in
  let* enrichedUsers := Promise_all (map enrich items) in
  set_ui (setUsers enrichedUsers).

Definition performCreate (c : Component) : M unit :=
  let fd := formData c in
  (* 1. Create User *)
  let newUserData :=
    VObj [("username", VStr (username fd)); ("email", VStr (email fd));
          ("enabled", VBool true); ("emailVerified", VBool true)] in
  let* _ := createUser env newUserData in
  (* 2. Find new user ID *)
  let* usersList := getUsers env 0 10 in
  let* items := lift (as_array usersList) in
  let* createdUser :=
    lift (find_result
            (fun u => match get u "username" with
                      | Throw e => Throw e
                      | Ok n => Ok (same_value n (VStr (username fd)))
                      end) items) in
  if negb (truthy createdUser) then throw (Error "User created but not found.") else
  (* 3. Set Password *)
  let* _ :=
    if truthy (VStr (password fd)) then
      let* id := lift (get createdUser "id") in
      let* _ := resetPassword env id (password fd) in
      ret tt
    else ret tt in
  (* 4. Assign Roles *)
  let rolesToAdd := selected_names (selectedRoles fd) in
  let* _ :=
    if (0 <? length rolesToAdd)%nat then
      let* roleObjects :=
        lift (filter_result (name_in (map VStr rolesToAdd)) (availableRoles c)) in
      let* id := lift (get createdUser "id") in
      let* _ := addRealmRoleMappings env id (VArr roleObjects) in
      ret tt
    else ret tt in
  log (Alert ("User " +:+ username fd +:+ " created successfully!")).

Definition performUpdate (c : Component) : M unit :=
  let fd := formData c in
  let editingUser := editingUser c in
  if negb (truthy editingUser) then ret tt else
  (* 1. Update Password if provided *)
  let* _ :=
    if truthy (VStr (password fd)) then
      let* id := lift (get editingUser "id") in
      let* _ := resetPassword env id (password fd) in
      ret tt
    else ret tt in
  (* 2. Calculate Role Diff *)
  let* realmRoles := lift (get editingUser "realmRoles") in
  let* currentRoleNames :=
    lift (as_array (if truthy realmRoles then realmRoles else VArr [])) in
  let newSelectedParams := selected_names (selectedRoles fd) in
  (* Roles to ADD: in new params but not in current *)
  let toAddNames :=
    List.filter (fun r => negb (includes currentRoleNames (VStr r))) newSelectedParams in
  (* Roles to REMOVE: in current but not in new params *)
  let toRemoveNames :=
    List.filter (fun r => negb (includes (map VStr newSelectedParams) r))
                currentRoleNames in
  let* _ :=
    if (0 <? length toAddNames)%nat then
      let* rolesToAdd :=
        lift (filter_result (name_in (map VStr toAddNames)) (availableRoles c)) in
      let* id := lift (get editingUser "id") in
      let* _ := addRealmRoleMappings env id (VArr rolesToAdd) in
      ret tt
    else ret tt in
  let* _ :=
    if (0 <? length toRemoveNames)%nat then
      let* rolesToRemove :=
        lift (filter_result (name_in toRemoveNames) (availableRoles c)) in
      if (0 <? length rolesToRemove)%nat then
        let* id := lift (get editingUser "id") in
        let* _ := removeRealmRoleMappings env id (VArr rolesToRemove) in
        ret tt
      else ret tt
    else ret tt in
  log (Alert ("User " +:+ username fd +:+ " updated!")).

End Component.

End UserManager.
Export UserManager.

(** ** src/components/AuditLog.jsx *)

Module AuditLog.

(** The state the paging controls are rendered from. *)
Record State : Type := {
  events : list value;
  page : Z;
  pageSize : Z;
}.

(** [disabled={events.length < pageSize}] of the Next button. *)
Definition next_disabled (st : State) : bool :=
  (Z.of_nat (length (events st)) <? pageSize st)%Z.

(** "If we got full page, assume there might be next". *)
Definition has_more (st : State) : bool := negb (next_disabled st).

End AuditLog.

(** ** Vocabulary of the specification *)

Module Spec.

(** The fetch of the [_request] started in world [w] resolves with [resp]:
    there is a token, the refresh succeeds and the server answers. *)
Definition responds (env : Env) (w : World) (endpoint : string)
    (options : Options) (resp : Response) : Prop :=
  no_token (token (keycloak w)) = false /\
  exists k' dt,
    updateToken env (trace w) 30 (keycloak w) = inr k' /\
    serve env (trace w ++ [UpdateToken 30])
          (request_config env endpoint options k') = (dt, inr resp).

(** In the words of the specification: the response has a zero-length
    body. *)
Definition zero_length_body (resp : Response) : Prop :=
  String.length (text resp) = 0%nat.

(** What a call of [_request] whose fetch resolves leaves behind: the
    refreshed adapter [k'], one round trip of [dt] seconds older, and the log
    of the refresh and of the request. *)
Definition after_fetch (env : Env) (w : World) (endpoint : string)
    (options : Options) (k' : Keycloak) (dt : Z) : World :=
  {| keycloak := {| token := token k'; expires_in := expires_in k' - dt |};
     trace := (trace w ++ [UpdateToken 30])
              ++ [Fetch (request_config env endpoint options k') (expires_in k')];
     ui := ui w |}.

(** The events a computation adds to the log. *)
Definition new_events {A} (m : M A) (w : World) : list event :=
  drop (length (trace w)) (trace (snd (m w))).

(** The error taxonomy of the Admin API client, in the words of the
    specification (section 4.2). *)
Inductive ApiFailure : Type :=
| Forbidden
| Conflict
| NotFound
| ApiError (status : Z) (body : string).

Definition spec_failure (st : Z) (body : string) : ApiFailure :=
  if (st =? 403)%Z then Forbidden
  else if (st =? 409)%Z then Conflict
  else if (st =? 404)%Z then NotFound
  else ApiError st body.

(** How an outcome of [_request] shows a failure of the taxonomy: the access
    denied, the conflict and the generic API error are the three errors the
    service throws; a not-found error is an error other than the generic
    one. *)
Definition surfaces_as (r : result value) (f : ApiFailure) : Prop :=
  match f with
  | Forbidden => r = Throw (Error access_denied_message)
  | Conflict => r = Throw (Error conflict_message)
  | ApiError st body => r = Throw (Error (api_error_message st body))
  | NotFound =>
      (exists e, r = Throw e) /\
      forall st body, r <> Throw (Error (api_error_message st body))
  end.

(** The operations of the Admin API client, and a call of one of them. *)
Inductive operation : Type :=
| GetUsers (first max : Z)
| GetUsersCount
| GetEvents (first max : Z) (types : list string)
| CreateUser (userData : value)
| ResetPassword (userId : value) (newPassword : string)
| GetRealmRoles
| GetUserRealmRoles (userId : value)
| AddRealmRoleMappings (userId rolesArray : value)
| RemoveRealmRoleMappings (userId rolesArray : value)
| GetRoleByName (roleName : value).

Definition call (env : Env) (op : operation) : M unit :=
  match op with
  | GetUsers first max => let* _ := getUsers env first max in ret tt
  | GetUsersCount => let* _ := getUsersCount env in ret tt
  | GetEvents first max types => let* _ := getEvents env first max types in ret tt
  | CreateUser userData => let* _ := createUser env userData in ret tt
  | ResetPassword userId newPassword =>
      let* _ := resetPassword env userId newPassword in ret tt
  | GetRealmRoles => let* _ := getRealmRoles env in ret tt
  | GetUserRealmRoles userId => let* _ := getUserRealmRoles env userId in ret tt
  | AddRealmRoleMappings userId rolesArray =>
      let* _ := addRealmRoleMappings env userId rolesArray in ret tt
  | RemoveRealmRoleMappings userId rolesArray =>
      let* _ := removeRealmRoleMappings env userId rolesArray in ret tt
  | GetRoleByName roleName => let* _ := getRoleByName env roleName in ret tt
  end.

(** [headers[name]] of a request. *)
Fixpoint header (name : string) (hs : list (string * string)) : option string :=
  match hs with
  | [] => None
  | (k, v) :: rest => if String.eqb k name then Some v else header name rest
  end.

(** The contract of the credential refresh (section 4.1) for a safety
    [margin]: when [updateToken(margin)] resolves, the token the adapter
    holds has at least [margin] seconds to live. *)
Definition refresh_keeps_margin (env : Env) (margin : Z) : Prop :=
  forall tr k k',
    updateToken env tr margin k = inr k' -> (margin <= expires_in k')%Z.

(** [null] and [undefined], the two values without properties. *)
Definition nullish (v : value) : bool :=
  match v with
  | VUndefined | VNull => true
  | _ => false
  end.

(** The role names [userRoles.map(r => r.name)] of a fetched role array. *)
Definition role_names (userRoles : value) : result (list value) :=
  match as_array userRoles with
  | Throw e => Throw e
  | Ok roles => map_result (fun r => get r "name") roles
  end.

(** The names that are not noise. *)
Definition meaningful (realm : string) (names : list value) : list value :=
  List.filter (fun n => negb (includes (noise realm) n)) names.

(** The world in which the role fetch of a user starts, when the users
    [before] it in the page have been enriched from world [w]. *)
Definition after_enriching (env : Env) (before : list value) (w : World) : World :=
  snd (Promise_all (map (enrich env) before) w).

(** [editingUser.realmRoles || []], as the array it has to be. *)
Definition current_role_names (editingUser : value) : result (list value) :=
  match get editingUser "realmRoles" with
  | Throw e => Throw e
  | Ok realmRoles => as_array (if truthy realmRoles then realmRoles else VArr [])
  end.

(** A grant call is a POST, a revoke call a DELETE: [performUpdate] sends no
    other request with these methods. *)
Definition is_grant (e : event) : bool :=
  match e with
  | Fetch req _ => bool_decide (method req = Some "POST")
  | _ => false
  end.

Definition is_revoke (e : event) : bool :=
  match e with
  | Fetch req _ => bool_decide (method req = Some "DELETE")
  | _ => false
  end.

(** Some event of the kind [kind] is in the log [new]. *)
Definition issued (kind : event -> bool) (new : list event) : bool :=
  existsb kind new.

(** A computation only adds to the log, and what it adds satisfies [P]. *)
Definition emits {A} (P : event -> Prop) (m : M A) : Prop :=
  forall w, exists new, trace (snd (m w)) = trace w ++ new /\ Forall P new.

(** The payloads of the grant and of the revoke call of [performUpdate]: the
    roles of the catalog whose name is to be granted, or to be revoked. *)
Definition reconcile_payload (env : Env) (c : Component) (C : list string)
    (e : event) : Prop :=
  match e with
  | Fetch req _ =>
      let D := selected_names (selectedRoles (formData c)) in
      (method req = Some "POST" ->
       exists roles,
         body req = Some (JSON_stringify env (VArr roles)) /\
         forall r, r ∈ roles <->
                   r ∈ availableRoles c /\
                   exists n, get r "name" = Ok (VStr n) /\ n ∈ D /\ n ∉ C) /\
      (method req = Some "DELETE" ->
       exists roles,
         body req = Some (JSON_stringify env (VArr roles)) /\
         forall r, r ∈ roles <->
                   r ∈ availableRoles c /\
                   exists n, get r "name" = Ok (VStr n) /\ n ∈ C /\ n ∉ D)
  | _ => True
  end.

(** The HTTP calls of a log: method and URL of every request, in order. *)
Definition calls (tr : list event) : list (option string * string) :=
  omap (fun e => match e with
                 | Fetch req _ => Some (method req, url req)
                 | _ => None
                 end) tr.

(** A computation sends the calls [expected], in that order: all of them when
    it returns, the first ones when it throws. *)
Definition sends {A} (m : M A) (expected : list (option string * string)) : Prop :=
  forall w, exists tail,
    trace (snd (m w)) = trace w ++ tail /\
    calls tail `prefix_of` expected /\
    (forall a, fst (m w) = Ok a -> calls tail = expected).

(** [usersList.find(u => u.username === formData.username)]. *)
Definition find_created (usersList : value) (uname : string) : result value :=
  match as_array usersList with
  | Throw e => Throw e
  | Ok items =>
      find_result (fun u => match get u "username" with
                            | Throw e => Throw e
                            | Ok n => Ok (same_value n (VStr uname))
                            end) items
  end.

(** The body of the create call. *)
Definition newUserData (fd : FormData) : value :=
  VObj [("username", VStr (username fd)); ("email", VStr (email fd));
        ("enabled", VBool true); ("emailVerified", VBool true)].

(** The calls of [performCreate] that need the identifier of the new user:
    the password reset when the form has a password, then the role
    assignment when the form selects a role. *)
Definition follow_up_calls (env : Env) (fd : FormData) (id : value)
  : list (option string * string) :=
  (if truthy (VStr (password fd))
   then [(Some "PUT", baseUrl env +:+ "/users/" +:+ to_string id +:+ "/reset-password")]
   else [])
  ++ (if (0 <? length (selected_names (selectedRoles fd)))%nat
      then [(Some "POST",
             baseUrl env +:+ "/users/" +:+ to_string id +:+ "/role-mappings/realm")]
      else []).

(** An environment in which every request succeeds and the session stays
    alive. *)
Definition always_succeeds (env : Env) : Prop :=
  forall endpoint options w,
    no_token (token (keycloak w)) = false ->
    exists v w',
      _request env endpoint options w = (Ok v, w') /\
      no_token (token (keycloak w')) = false.

End Spec.
Export Spec.

(** ** Concrete worlds, for the examples *)

Module Demo.

Definition quote : ascii := ascii_of_nat 34.

(** A serialiser good enough for the examples (no escaping). *)
Fixpoint stringify (v : value) : string :=
  match v with
  | VUndefined => "undefined"
  | VNull => "null"
  | VBool true => "true"
  | VBool false => "false"
  | VNum n => string_of_Z n
  | VStr s => String quote (s +:+ String quote EmptyString)
  | VArr items =>
      "[" +:+
      (fix elems (l : list value) : string :=
         match l with
         | [] => ""
         | x :: rest =>
             match rest with
             | [] => stringify x
             | _ :: _ => stringify x +:+ "," +:+ elems rest
             end
         end) items +:+ "]"
  | VObj props =>
      "{" +:+
      (fix fields (l : list (string * value)) : string :=
         match l with
         | [] => ""
         | (k, x) :: rest =>
             let kv := String quote (k +:+ String quote EmptyString) +:+ ":" +:+ stringify x in
             match rest with
             | [] => kv
             | _ :: _ => kv +:+ "," +:+ fields rest
             end
         end) props +:+ "}"
  end.

(** An adapter in the manner of keycloak-js: the token is replaced by a fresh
    one of five minutes when it has less than [minValidity] seconds left. *)
Definition refresh (tr : list event) (minValidity : Z) (k : Keycloak)
  : exn + Keycloak :=
  if (expires_in k <? minValidity)%Z
  then inr {| token := Some "fresh-token"; expires_in := 300 |}
  else inr k.

(** An environment whose server is the function [server] of the request. *)
Definition env_of (server : Request -> exn + Response) : Env :=
  {| authServerUrl := "http://127.0.0.1:8080/";
     realm := "my-react-app";
     updateToken := refresh;
     serve := fun _ req => (1, server req);
     JSON_stringify := stringify |}.

Definition no_form : FormData :=
  {| username := ""; email := ""; password := ""; selectedRoles := ∅ |}.

Definition blank : Component :=
  {| users := []; availableRoles := []; editingUser := VNull; page := 0;
     pageSize := 5; totalUsers := Some 0; formData := no_form |}.

(** A session whose token has ten seconds left. *)
Definition world_of (c : Component) : World :=
  {| keycloak := {| token := Some "old-token"; expires_in := 10 |};
     trace := []; ui := c |}.

Definition reply (st : Z) (len : option string) (txt : string) (j : option value)
  : Response :=
  {| status := st; content_length := len; text := txt; json := j |}.

Definition base : string := "http://127.0.0.1:8080/admin/realms/my-react-app".

Definition alice : value :=
  VObj [("id", VStr "u1"); ("username", VStr "alice"); ("enabled", VBool true)].

Definition bob : value :=
  VObj [("id", VStr "u2"); ("username", VStr "bob");
        ("email", VStr "bob@example.org")].

Definition role (id name : string) : value :=
  VObj [("id", VStr id); ("name", VStr name)].

Definition json_reply (v : value) : Response :=
  reply 200 None (stringify v) (Some v).

(** A realm with two users. The roles of alice include two noise names; the
    role endpoint of bob is broken; every write is answered with 204. *)
Definition directory (req : Request) : exn + Response :=
  match method req with
  | None =>
      if String.eqb (url req) (base +:+ "/users?first=0&max=5")
      then inr (json_reply (VArr [alice; bob]))
      else if String.eqb (url req) (base +:+ "/users?first=0&max=10")
      then inr (json_reply (VArr [alice; bob]))
      else if String.eqb (url req) (base +:+ "/users/count")
      then inr (json_reply (VNum 2))
      else if String.eqb (url req) (base +:+ "/users/u1/role-mappings/realm")
      then inr (json_reply (VArr [role "r1" "admin"; role "r7" "offline_access";
                                  role "r8" "default-roles-my-react-app"]))
      else inr (reply 500 None "boom" None)
  | Some _ => inr (reply 204 None EmptyString None)
  end.

Definition catalog : list value :=
  [role "r1" "admin"; role "r2" "doctor"; role "r3" "doctoradmin"].

Definition form_of (uname pw : string) (selected : gmap string bool) : FormData :=
  {| username := uname; email := EmptyString; password := pw;
     selectedRoles := selected |}.

(** The state of the modal: the user being edited, if any, and the form. *)
Definition editing (u : value) (form : FormData) : Component :=
  {| users := []; availableRoles := catalog; editingUser := u; page := 0;
     pageSize := 5; totalUsers := Some 2; formData := form |}.

End Demo.

(** ** The rest of src/components/UserManager.jsx *)

Module Screen.

(** [modalMode]: ['create'] or ['edit']. *)
Inductive Mode : Type :=
| Create
| Edit.

Definition mode_text (m : Mode) : string :=
  match m with
  | Create => "create"
  | Edit => "edit"
  end.

(** The state of [UserManager] beside the [Component]: the spinner, the error
    banner ([null] or what [setError] was given), the modal, and what went to
    [console.error]. *)
Record Screen : Type := {
  loading : bool;
  error : value;
  showModal : bool;
  modalMode : Mode;
  console_errors : list exn;
}.

Definition setLoading (b : bool) (s : Screen) : Screen :=
  {| loading := b; error := error s; showModal := showModal s;
     modalMode := modalMode s; console_errors := console_errors s |}.

Definition setError (v : value) (s : Screen) : Screen :=
  {| loading := loading s; error := v; showModal := showModal s;
     modalMode := modalMode s; console_errors := console_errors s |}.

Definition setShowModal (b : bool) (s : Screen) : Screen :=
  {| loading := loading s; error := error s; showModal := b;
     modalMode := modalMode s; console_errors := console_errors s |}.

Definition setModalMode (m : Mode) (s : Screen) : Screen :=
  {| loading := loading s; error := error s; showModal := showModal s;
     modalMode := m; console_errors := console_errors s |}.

Definition console_error (e : exn) (s : Screen) : Screen :=
  {| loading := loading s; error := error s; showModal := showModal s;
     modalMode := modalMode s; console_errors := console_errors s ++ [e] |}.

Definition setAvailableRoles (roles : list value) (c : Component) : Component :=
  {| users := users c; availableRoles := roles;
     editingUser := editingUser c; page := page c; pageSize := pageSize c;
     totalUsers := totalUsers c; formData := formData c |}.

Definition setEditingUser (u : value) (c : Component) : Component :=
  {| users := users c; availableRoles := availableRoles c;
     editingUser := u; page := page c; pageSize := pageSize c;
     totalUsers := totalUsers c; formData := formData c |}.

Definition setFormData (fd : FormData) (c : Component) : Component :=
  {| users := users c; availableRoles := availableRoles c;
     editingUser := editingUser c; page := page c; pageSize := pageSize c;
     totalUsers := totalUsers c; formData := fd |}.

Definition setPage (p : Z) (c : Component) : Component :=
  {| users := users c; availableRoles := availableRoles c;
     editingUser := editingUser c; page := p; pageSize := pageSize c;
     totalUsers := totalUsers c; formData := formData c |}.

(** [const allowedRoles = ['admin', 'doctor', 'doctoradmin']]. *)
Definition allowedRoles : list string := ["admin"; "doctor"; "doctoradmin"].

(** [arr.sort(cmp)] for a consistent comparator that does not throw: the stable sort,
    here by insertion from the left; [x] goes after the elements that do not
    compare greater than it. *)
Fixpoint insert_sorted {A} (cmp : A -> A -> Z) (x : A) (l : list A) : list A :=
  match l with
  | [] => [x]
  | y :: rest =>
      if (cmp y x <=? 0)%Z then y :: insert_sorted cmp x rest else x :: y :: rest
  end.

Definition sort_with {A} (cmp : A -> A -> Z) (l : list A) : list A :=
  fold_left (fun sorted x => insert_sorted cmp x sorted) l [].

(** The names of [Object.prototype]: what [obj[k]] finds, and finds truthy,
    when [obj] has no own property [k]. *)
Definition Object_prototype : list string :=
  ["constructor"; "hasOwnProperty"; "isPrototypeOf"; "propertyIsEnumerable";
   "toLocaleString"; "toString"; "valueOf"; "__proto__";
   "__defineGetter__"; "__defineSetter__"; "__lookupGetter__";
   "__lookupSetter__"].

(** The truth value of [selectedRoles[k]]. *)
Definition read_selected (m : gmap string bool) (k : string) : bool :=
  match m !! k with
  | Some b => b
  | None => bool_decide (k ∈ Object_prototype)
  end.

(** [roleMap[r] = true]: the key is [r] as a string; an assignment to
    [__proto__] creates no property. *)
Definition assign_true (m : gmap string bool) (r : value) : gmap string bool :=
  let k := to_string r in
  if String.eqb k "__proto__" then m else <[k := true]> m.

(** [const roleMap = {}; realmRoles.forEach(r => roleMap[r] = true)]. *)
Definition roleMap_of (realmRoles : list value) : gmap string bool :=
  fold_left assign_true realmRoles ∅.

(** [toggleRole(roleName)], the update of the form:
    [{...prev, selectedRoles: {...prev.selectedRoles,
                               [roleName]: !prev.selectedRoles[roleName]}}]. *)
Definition toggleRole (roleName : value) (prev : FormData) : FormData :=
  let k := to_string roleName in
  {| username := username prev; email := email prev; password := password prev;
     selectedRoles :=
       <[k := negb (read_selected (selectedRoles prev) k)]> (selectedRoles prev) |}.

(** [openCreateModal]. *)
Definition openCreateModal (s : Screen) (c : Component) : Screen * Component :=
  let s := setModalMode Create s in
  let c := setFormData {| username := EmptyString; email := EmptyString;
                          password := EmptyString; selectedRoles := ∅ |} c in
  let c := setEditingUser VNull c in
  (setShowModal true s, c).

(** [openEditModal(user)]. The [username] and the [email] of an edit form are
    only ever shown (the disabled input, the alert of [performUpdate]): they
    are kept as the text they are shown as. When [user.realmRoles.forEach]
    throws, the state is not said. *)
Definition openEditModal (user : value) (s : Screen) (c : Component)
  : result (Screen * Component) :=
  let s := setModalMode Edit s in
  let c := setEditingUser user c in
  (* Pre-select current roles *)
  match get user "realmRoles" with
  | Throw e => Throw e
  | Ok realmRoles =>
      match as_array realmRoles with
      | Throw e => Throw e
      | Ok roles =>
          let roleMap := roleMap_of roles in
          match get user "username", get user "email" with
          | Ok uname, Ok mail =>
              let c :=
                setFormData
                  {| username := to_string uname;
                     email := if truthy mail then to_string mail else EmptyString;
                     password := EmptyString; (* Blank implies no change *)
                     selectedRoles := roleMap |} c in
              Ok (setShowModal true s, c)
          | Throw e, _ | _, Throw e => Throw e
          end
      end
  end.

(** The paging controls of the user table. A disabled button does not
    click. *)
Definition previous_disabled (c : Component) : bool := (page c =? 0)%Z.

Definition click_previous (c : Component) : Component :=
  if previous_disabled c then c else setPage (Z.max 0 (page c - 1)) c.

(** [(page + 1) * pageSize >= totalUsers]; a comparison with NaN is false. *)
Definition next_disabled (c : Component) : bool :=
  match totalUsers c with
  | Some total => (total <=? (page c + 1) * pageSize c)%Z
  | None => false
  end.

Definition click_next (c : Component) : Component :=
  if next_disabled c then c else setPage (page c + 1) c.

Section Handlers.

Variable env : Env.

(** [a.localeCompare(b)], by the collation of the host. *)
Variable localeCompare : string -> string -> Z.

(** The [message] of the errors the engine itself throws. *)
Variable engine_message : exn -> string.

(** [err.message]. *)
Definition message_of (err : exn) : result value :=
  match err with
  | Error m => Ok (VStr m)
  | TypeError | SyntaxError => Ok (VStr (engine_message err))
  | Rejected reason => get reason "message"
  end.

(** [r.name] of a role that passed the filter of [loadRoles]: a string. *)
Definition name_text (r : value) : string :=
  match get r "name" with
  | Ok (VStr s) => s
  | _ => EmptyString
  end.

(** [(a, b) => a.name.localeCompare(b.name)], on such roles. *)
Definition compare_names (a b : value) : Z :=
  localeCompare (name_text a) (name_text b).

Definition loadRoles : M unit :=
  let* roles := getRealmRoles env in
  (* Filter roles: only admin, doctor, doctoradmin *)
  let* items := lift (as_array roles) in
  let* filtered := lift (filter_result (name_in (map VStr allowedRoles)) items) in
  set_ui (setAvailableRoles (sort_with compare_names filtered)).

Definition loadAllData (c : Component) (s : Screen) (w : World)
  : result unit * Screen * World :=
  let s := setError VNull (setLoading true s) in
  match Promise_all2 loadRoles (loadUsers env c) w with
  | (Ok _, w') => (Ok tt, setLoading false s, w')
  | (Throw err, w') =>
      let s := console_error err s in
      match message_of err with
      | Ok m => (Ok tt, setLoading false (setError m s), w')
      | Throw e => (Throw e, setLoading false s, w')
      end
  end.

Definition handleSave (c : Component) (s : Screen) (w : World)
  : result unit * Screen * World :=
  let mode := modalMode s in
  let s := setError VNull (setLoading true s) in
  let '(failure, s, w') :=
    match (match mode with
           | Create => performCreate env c
           | Edit => performUpdate env c
           end) w with
    | (Throw err, w1) => (Some err, s, w1)
    | (Ok _, w1) =>
        let s := setShowModal false s in
        (* Refresh list to show changes *)
        match loadUsers env c w1 with
        | (Throw err, w2) => (Some err, s, w2)
        | (Ok _, w2) => (None, s, w2)
        end
    end in
  match failure with
  | None => (Ok tt, setLoading false s, w')
  | Some err =>
      match message_of err with
      | Ok m =>
          (Ok tt,
           setLoading false
             (setError (VStr ("Failed to " +:+ mode_text mode +:+ " user: "
                              +:+ to_string m)) s),
           w')
      | Throw e => (Throw e, setLoading false s, w')
      end
  end.

End Handlers.

End Screen.

(** ** The rest of src/components/AuditLog.jsx *)

Module AuditView.

(** The error banner: none, the help text for a missing permission, or
    [err.message]. *)
Inductive Banner : Type :=
| NoError
| AccessDeniedHelp
| Message (m : value).

(** The state of [AuditLog]: [events] is what [setEvents] stored. *)
Record View : Type := {
  events : value;
  page : Z;
  pageSize : Z;
  loading : bool;
  error : Banner;
  console_errors : list exn;
}.

Definition setEvents (v : value) (s : View) : View :=
  {| events := v; page := page s; pageSize := pageSize s; loading := loading s;
     error := error s; console_errors := console_errors s |}.

Definition setLoading (b : bool) (s : View) : View :=
  {| events := events s; page := page s; pageSize := pageSize s; loading := b;
     error := error s; console_errors := console_errors s |}.

Definition setError (b : Banner) (s : View) : View :=
  {| events := events s; page := page s; pageSize := pageSize s;
     loading := loading s; error := b; console_errors := console_errors s |}.

Definition console_error (e : exn) (s : View) : View :=
  {| events := events s; page := page s; pageSize := pageSize s;
     loading := loading s; error := error s;
     console_errors := console_errors s ++ [e] |}.

(** [hay.includes(needle)] on strings. *)
Fixpoint contains (needle hay : string) : bool :=
  String.prefix needle hay
  || match hay with
     | EmptyString => false
     | String _ rest => contains needle rest
     end.

(** [m.includes(needle)] for a truthy [m]: a substring test on a string, a
    membership test on an array, a [TypeError] on everything else. *)
Definition message_includes (m : value) (needle : string) : result bool :=
  match m with
  | VStr s => Ok (contains needle s)
  | VArr items => Ok (includes items (VStr needle))
  | _ => Throw TypeError
  end.

(** "Check for 403 Access Denied". *)
Definition is_access_denied (m : value) : result bool :=
  if truthy m then
    match message_includes m "403" with
    | Throw e => Throw e
    | Ok true => Ok true
    | Ok false => message_includes m "Access Denied"
    end
  else Ok false.

Section Handlers.

Variable env : Env.
Variable engine_message : exn -> string.

Definition loadEvents (s : View) (w : World) : result unit * View * World :=
  let s0 := s in
  let s := setError NoError (setLoading true s) in
  let first := page s0 * pageSize s0 in
  match getEvents env first (pageSize s0) default_event_types w with
  | (Ok data, w') =>
      (Ok tt,
       setLoading false (setEvents (if truthy data then data else VArr []) s),
       w')
  | (Throw err, w') =>
      let s := console_error err s in
      match Screen.message_of engine_message err with
      | Throw e => (Throw e, setLoading false s, w')
      | Ok m =>
          match is_access_denied m with
          | Throw e => (Throw e, setLoading false s, w')
          | Ok true => (Ok tt, setLoading false (setError AccessDeniedHelp s), w')
          | Ok false => (Ok tt, setLoading false (setError (Message m) s), w')
          end
      end
  end.

End Handlers.

End AuditView.

(** ** Vocabulary of the further properties *)

Module More.

(** The operations that only read. *)
Definition is_read (op : operation) : bool :=
  match op with
  | GetUsers _ _ | GetUsersCount | GetEvents _ _ _ | GetRealmRoles
  | GetUserRealmRoles _ | GetRoleByName _ => true
  | _ => false
  end.

(** The refreshes of a log. *)
Definition refreshes (tr : list event) : list Z :=
  omap (fun e => match e with
                 | UpdateToken margin => Some margin
                 | _ => None
                 end) tr.

(** [Number.isSafeInteger(n)]: the integers that a number holds exactly and
    prints in full. *)
Definition safe_integer (n : Z) : Prop :=
  (- 9007199254740991 <= n <= 9007199254740991)%Z.

(** How often the character [c] occurs in [s]. *)
Definition occurrences (c : ascii) (s : string) : nat :=
  count_occ Ascii.ascii_dec (list_ascii_of_string s) c.

(** A computation sends some of the calls [expected], in that order, and no
    other. *)
Definition sends_some {A} (m : M A) (expected : list (option string * string))
  : Prop :=
  forall w, exists tail,
    trace (snd (m w)) = trace w ++ tail /\ calls tail `sublist_of` expected.

(** [u.id] in a template literal. *)
Definition id_text (u : value) : string :=
  to_string (match get u "id" with Ok id => id | Throw _ => VUndefined end).

(** The call that fetches the roles of the user [u]. *)
Definition role_call (env : Env) (u : value) : option string * string :=
  (None, baseUrl env +:+ "/users/" +:+ id_text u +:+ "/role-mappings/realm").

(** The three calls [performUpdate] can make for the user [u]. *)
Definition update_calls (env : Env) (u : value) : list (option string * string) :=
  [(Some "PUT", baseUrl env +:+ "/users/" +:+ id_text u +:+ "/reset-password");
   (Some "POST", baseUrl env +:+ "/users/" +:+ id_text u +:+ "/role-mappings/realm");
   (Some "DELETE", baseUrl env +:+ "/users/" +:+ id_text u +:+ "/role-mappings/realm")].

(** The page of users that [loadUsers] received, if it received one. *)
Definition page_of (env : Env) (c : Component) (w : World) : list value :=
  match Promise_all2 (getUsers env (page c * pageSize c) (pageSize c))
                     (getUsersCount env) w with
  | (Ok (VArr data, _), _) => data
  | _ => []
  end.

(** What the requests of [performCreate] carry: a POST the new user or the
    catalog roles whose name is ticked in the form, a PUT the password of the
    form, not temporary; there is no other method but GET. *)
Definition create_payload (env : Env) (c : Component) (e : event) : Prop :=
  match e with
  | Fetch req _ =>
      match method req with
      | None => True
      | Some m =>
          (m = "POST" /\
           (body req = Some (JSON_stringify env (newUserData (formData c))) \/
            exists roles,
              body req = Some (JSON_stringify env (VArr roles)) /\
              forall r, r ∈ roles <->
                        r ∈ availableRoles c /\
                        exists n, get r "name" = Ok (VStr n) /\
                                  n ∈ selected_names (selectedRoles (formData c))))
          \/ (m = "PUT" /\
              body req
              = Some (JSON_stringify env
                        (VObj [("type", VStr "password");
                               ("value", VStr (password (formData c)));
                               ("temporary", VBool false)])))
      end
  | _ => True
  end.

(** A demo server that lists alice and bob on every read and accepts every
    write with a 204. *)
Definition registry (req : Request) : exn + Response :=
  match method req with
  | None => inr (Demo.json_reply (VArr [Demo.alice; Demo.bob]))
  | Some _ => inr (Demo.reply 204 None EmptyString None)
  end.

(** The save step of [handleSave]. *)
Definition save_step (env : Env) (mode : Screen.Mode) (c : Component) : M unit :=
  match mode with
  | Screen.Create => performCreate env c
  | Screen.Edit => performUpdate env c
  end.

(** The clicks on the paging controls of the user table. *)
Inductive Click : Type :=
| Previous
| Next.

Definition click (c : Component) (k : Click) : Component :=
  match k with
  | Previous => Screen.click_previous c
  | Next => Screen.click_next c
  end.

End More.

(** * Properties *)

(** ** [_request] *)

Section RequestFacts.

Variable env : Env.

Lemma request_unfold w endpoint options resp k' dt :
  no_token (token (keycloak w)) = false ->
  updateToken env (trace w) 30 (keycloak w) = inr k' ->
  serve env (trace w ++ [UpdateToken 30])
        (request_config env endpoint options k') = (dt, inr resp) ->
  _request env endpoint options w =
    let w1 := after_fetch env w endpoint options k' dt in
    if negb (ok resp) then
      if (status resp =? 403)%Z then (Throw (Error access_denied_message), w1)
      else if (status resp =? 409)%Z then (Throw (Error conflict_message), w1)
      else (Throw (Error (api_error_message (status resp) (text resp))),
            snd (log ReadText w1))
    else if bool_decide (content_length resp = Some "0") || (status resp =? 204)%Z
    then (Ok VNull, w1)
    else (Ok (default VNull (json resp)), snd (log ReadJson w1)).
Proof.
  intros Htok Hupd Hsrv.
  unfold _request, bind, get_keycloak, keycloak_updateToken, fetch; simpl.
  rewrite Htok, Hupd; simpl. rewrite Hsrv; simpl.
  unfold after_fetch.
  destruct (ok resp); simpl.
  - destruct (bool_decide _ || _); [reflexivity|].
    unfold try_catch, response_json, bind, log, ret, throw; simpl.
    destruct (json resp); reflexivity.
  - destruct (status resp =? 403)%Z; [reflexivity|].
    destruct (status resp =? 409)%Z; reflexivity.
Qed.

End RequestFacts.

(** C2 (as amended). Every non-2xx response makes [_request] throw: the
    access-denied error on 403, the conflict error on 409, and on every other
    status, 404 included, the generic API error that carries the status and
    the response body. No such response is surfaced as a parse error. *)
Theorem request_classifies_failures env w endpoint options resp :
  responds env w endpoint options resp ->
  ok resp = false ->
  fst (_request env endpoint options w) =
    Throw (Error (if (status resp =? 403)%Z then access_denied_message
                  else if (status resp =? 409)%Z then conflict_message
                  else api_error_message (status resp) (text resp)))
  /\ fst (_request env endpoint options w) <> Throw SyntaxError.
Proof.
  intros (Htok & k' & dt & Hupd & Hsrv) Hok.
  rewrite (request_unfold env _ _ _ _ _ _ Htok Hupd Hsrv); simpl.
  rewrite Hok; simpl.
  destruct (status resp =? 403)%Z; [split; [reflexivity|discriminate]|].
  destruct (status resp =? 409)%Z; split; (reflexivity || discriminate).
Qed.

Lemma request_classifies_failures_witness :
  let env := Demo.env_of (fun _ => inr (Demo.reply 403 (Some "9") "forbidden" None)) in
  let w := Demo.world_of Demo.blank in
  fst (_request env "/users/count" no_options w) = Throw (Error access_denied_message)
  /\ fst (_request env "/users/count" no_options w) <> Throw SyntaxError.
Proof.
  intros env w.
  apply (request_classifies_failures env w "/users/count" no_options
           (Demo.reply 403 (Some "9") "forbidden" None)).
  - split; [reflexivity|]. eexists _, _. split; reflexivity.
  - reflexivity.
Defined.

(** C2, the counterexample: a 404 is thrown as the generic API error, which
    is not how the taxonomy of the specification surfaces a not-found. *)
Lemma not_found_is_a_generic_api_error :
  let resp := Demo.reply 404 (Some "7") "missing" None in
  let env := Demo.env_of (fun _ => inr resp) in
  let w := Demo.world_of Demo.blank in
  responds env w "/roles/ghost" no_options resp
  /\ ok resp = false
  /\ spec_failure (status resp) (text resp) = NotFound
  /\ fst (_request env "/roles/ghost" no_options w)
     = Throw (Error "API Error 404: missing")
  /\ ~ surfaces_as (fst (_request env "/roles/ghost" no_options w))
                   (spec_failure (status resp) (text resp)).
Proof.
  intros resp env w. split; [|split; [|split; [|split]]].
  - split; [reflexivity|]. eexists _, _. split; reflexivity.
  - reflexivity.
  - reflexivity.
  - reflexivity.
  - intros [_ H]. apply (H 404%Z "missing"). reflexivity.
Qed.

(** C7 (as amended). On a 2xx response, [_request] returns [null] without
    reading the body as JSON when the status is 204 or the content-length
    header is the string 0; on every other 2xx response, one with an empty
    body and no such header included, it reads the body as JSON and returns
    what it parses to, or [null] when it does not parse. *)
Theorem request_returns_null_or_json env w endpoint options resp :
  responds env w endpoint options resp ->
  ok resp = true ->
  (status resp = 204%Z \/ content_length resp = Some "0" ->
   fst (_request env endpoint options w) = Ok VNull
   /\ ReadJson ∉ new_events (_request env endpoint options) w)
  /\ (status resp <> 204%Z -> content_length resp <> Some "0" ->
      ReadJson ∈ new_events (_request env endpoint options) w
      /\ (forall v, json resp = Some v ->
                    fst (_request env endpoint options w) = Ok v)
      /\ (json resp = None ->
          fst (_request env endpoint options w) = Ok VNull)).
Proof.
  intros (Htok & k' & dt & Hupd & Hsrv) Hok.
  unfold new_events.
  rewrite (request_unfold env _ _ _ _ _ _ Htok Hupd Hsrv); simpl.
  rewrite Hok; simpl. split.
  - intros Hnull.
    assert (bool_decide (content_length resp = Some "0") || (status resp =? 204)%Z = true)
      as ->.
    { destruct Hnull as [H|H].
      - rewrite H. apply orb_true_r.
      - rewrite bool_decide_eq_true_2 by exact H. reflexivity. }
    split; [reflexivity|]. simpl.
    rewrite <- app_assoc, drop_app_length. simpl.
    intros H. repeat (apply elem_of_cons in H as [H|H]; [discriminate|]).
    inversion H.
  - intros H204 Hlen.
    rewrite bool_decide_eq_false_2 by exact Hlen.
    assert ((status resp =? 204)%Z = false) as -> by (apply Z.eqb_neq; exact H204).
    simpl. split; [|split].
    + rewrite <- !app_assoc, drop_app_length. simpl.
      do 2 apply list_elem_of_further. apply list_elem_of_here.
    + intros v ->. reflexivity.
    + intros ->. reflexivity.
Qed.

Lemma request_returns_null_or_json_witness :
  let resp := Demo.reply 200 (Some "13") "[1,2]" (Some (VArr [VNum 1; VNum 2])) in
  let env := Demo.env_of (fun _ => inr resp) in
  let w := Demo.world_of Demo.blank in
  responds env w "/roles" no_options resp /\ ok resp = true
  /\ fst (_request env "/roles" no_options w) = Ok (VArr [VNum 1; VNum 2]).
Proof.
  intros resp env w.
  assert (responds env w "/roles" no_options resp) as Hresp.
  { split; [reflexivity|]. eexists _, _. split; reflexivity. }
  split; [exact Hresp|]. split; [reflexivity|].
  refine (proj1 (proj2 (proj2 (request_returns_null_or_json
                                 env w "/roles" no_options resp
                                 Hresp eq_refl) _ _)) _ eq_refl);
    discriminate.
Defined.

(** The claim as it was worded fails on a 200 whose body is empty and which
    has no content-length header: the body is of zero length, and [_request]
    still reads it as JSON (the reading fails, and [null] is what the
    [catch] returns). *)
Lemma empty_body_without_length_header_is_parsed :
  let resp := Demo.reply 200 None EmptyString None in
  let env := Demo.env_of (fun _ => inr resp) in
  let w := Demo.world_of Demo.blank in
  responds env w "/roles" no_options resp /\
  ok resp = true /\
  zero_length_body resp /\
  ReadJson ∈ new_events (_request env "/roles" no_options) w /\
  ~ (status resp = 204%Z \/ zero_length_body resp ->
     ReadJson ∉ new_events (_request env "/roles" no_options) w).
Proof.
  intros resp env w.
  assert (ReadJson ∈ new_events (_request env "/roles" no_options) w) as Hread.
  { vm_compute. do 2 apply list_elem_of_further. apply list_elem_of_here. }
  split; [|split; [|split; [|split]]].
  - split; [reflexivity|]. eexists _, _. split; reflexivity.
  - reflexivity.
  - reflexivity.
  - exact Hread.
  - intros H. apply H; [right; reflexivity|exact Hread].
Qed.

(** C10. On a 2xx response that is neither a 204 nor of zero length and whose
    body is not JSON, [_request] returns [null]; and on no 2xx response at
    all does [_request] throw. *)
Theorem request_hides_parse_failures env w endpoint options resp :
  responds env w endpoint options resp ->
  ok resp = true ->
  (status resp <> 204%Z -> content_length resp <> Some "0" -> json resp = None ->
   fst (_request env endpoint options w) = Ok VNull)
  /\ exists v, fst (_request env endpoint options w) = Ok v.
Proof.
  intros (Htok & k' & dt & Hupd & Hsrv) Hok.
  rewrite (request_unfold env _ _ _ _ _ _ Htok Hupd Hsrv); simpl.
  rewrite Hok; simpl. split.
  - intros H204 Hlen Hjson.
    rewrite bool_decide_eq_false_2 by exact Hlen.
    assert ((status resp =? 204)%Z = false) as -> by (apply Z.eqb_neq; exact H204).
    simpl. rewrite Hjson. reflexivity.
  - destruct (bool_decide _ || _); eexists; reflexivity.
Qed.

Lemma request_hides_parse_failures_witness :
  let resp := Demo.reply 200 (Some "6") "<html>" None in
  let env := Demo.env_of (fun _ => inr resp) in
  let w := Demo.world_of Demo.blank in
  responds env w "/roles" no_options resp /\ ok resp = true
  /\ fst (_request env "/roles" no_options w) = Ok VNull.
Proof.
  intros resp env w.
  assert (responds env w "/roles" no_options resp) as Hresp.
  { split; [reflexivity|]. eexists _, _. split; reflexivity. }
  split; [exact Hresp|]. split; [reflexivity|].
  refine (proj1 (request_hides_parse_failures env w "/roles" no_options resp
                   Hresp eq_refl) _ _ eq_refl); discriminate.
Defined.

(** ** The credential *)

Section Credential.

Variable env : Env.

(** The log of one [_request]: nothing when there is no token, the refresh
    alone when it rejects, and otherwise the refresh, then the request with
    the refreshed credential, then at most the reading of the body. *)
Lemma request_trace endpoint options w :
  exists new,
    trace (snd (_request env endpoint options w)) = trace w ++ new /\
    (new = [] \/ new = [UpdateToken 30] \/
     exists k' tail,
       updateToken env (trace w) 30 (keycloak w) = inr k' /\
       new = UpdateToken 30
             :: Fetch (request_config env endpoint options k') (expires_in k')
             :: tail /\
       (tail = [] \/ tail = [ReadText] \/ tail = [ReadJson])).
Proof.
  destruct (no_token (token (keycloak w))) eqn:Htok.
  { exists []. unfold _request, bind, get_keycloak; simpl. rewrite Htok; simpl.
    rewrite app_nil_r. auto. }
  destruct (updateToken env (trace w) 30 (keycloak w)) as [e|k'] eqn:Hupd.
  { exists [UpdateToken 30].
    unfold _request, bind, get_keycloak, keycloak_updateToken; simpl.
    rewrite Htok; simpl. rewrite Hupd; simpl. auto. }
  destruct (serve env (trace w ++ [UpdateToken 30])
              (request_config env endpoint options k')) as [dt [e|resp]] eqn:Hsrv.
  { eexists.
    unfold _request, bind, get_keycloak, keycloak_updateToken, fetch; simpl.
    rewrite Htok; simpl. rewrite Hupd; simpl. rewrite Hsrv; simpl.
    rewrite <- app_assoc. split; [reflexivity|].
    right; right. exists k', []. auto. }
  rewrite (request_unfold env _ _ _ _ _ _ Htok Hupd Hsrv); simpl.
  assert (forall tail,
            (tail = [] \/ tail = [ReadText] \/ tail = [ReadJson]) ->
            exists new,
              ((trace w ++ [UpdateToken 30])
               ++ [Fetch (request_config env endpoint options k') (expires_in k')])
              ++ tail = trace w ++ new /\
              (new = [] \/ new = [UpdateToken 30] \/
               exists k'0 tail0,
                 @inr exn Keycloak k' = inr k'0 /\
                 new = UpdateToken 30
                       :: Fetch (request_config env endpoint options k'0) (expires_in k'0)
                       :: tail0 /\
                 (tail0 = [] \/ tail0 = [ReadText] \/ tail0 = [ReadJson])))
    as Hshape.
  { intros tail Htail. rewrite <- !app_assoc. simpl.
    eexists. split; [reflexivity|]. right; right. exists k', tail. auto. }
  destruct (ok resp); simpl.
  - destruct (bool_decide _ || _); simpl.
    + rewrite <- (app_nil_r (_ ++ [Fetch _ _])). apply Hshape. auto.
    + apply Hshape. auto.
  - destruct (status resp =? 403)%Z; simpl;
      [rewrite <- (app_nil_r (_ ++ [Fetch _ _])); apply Hshape; auto|].
    destruct (status resp =? 409)%Z; simpl;
      [rewrite <- (app_nil_r (_ ++ [Fetch _ _])); apply Hshape; auto|].
    apply Hshape. auto.
Qed.

Lemma snd_bind_ret {A B} (m : M A) (f : A -> B) (w : World) :
  snd ((let* x := m in ret (f x)) w) = snd (m w).
Proof. unfold bind, ret. destruct (m w) as [[a|e] w']; reflexivity. Qed.

(** Every operation is one [_request], without headers of its own. *)
Lemma call_is_request op :
  exists endpoint options,
    opt_headers options = [] /\
    forall w, snd (call env op w) = snd (_request env endpoint options w).
Proof.
  destruct op; simpl;
    unfold getUsers, getUsersCount, getEvents, createUser, resetPassword,
      getRealmRoles, getUserRealmRoles, addRealmRoleMappings,
      removeRealmRoleMappings, getRoleByName;
    eexists _, _;
    (split; [|intros w; rewrite (snd_bind_ret _ (fun _ => tt)), ?snd_bind_ret;
              reflexivity]);
    reflexivity.
Qed.

End Credential.

(** C4. Whatever operation of the Admin API client is called, the request it
    sends comes right after a resolved [updateToken(30)], carries the token
    the adapter holds after that refresh, and so leaves with a credential
    that has no less than the 30 seconds of margin left. *)
Theorem no_request_with_stale_credential env op w pre req lifetime post :
  refresh_keeps_margin env 30 ->
  new_events (call env op) w = pre ++ Fetch req lifetime :: post ->
  (30 <= lifetime)%Z /\
  pre = [UpdateToken 30] /\
  exists k',
    updateToken env (trace w) 30 (keycloak w) = inr k' /\
    lifetime = expires_in k' /\
    header "Authorization" (headers req) = Some ("Bearer " +:+ token_string (token k')).
Proof.
  intros Hcontract Hnew. unfold new_events in Hnew.
  destruct (call_is_request env op) as (endpoint & options & Hhdr & Hcall).
  rewrite Hcall in Hnew.
  destruct (request_trace env endpoint options w) as (new & Htr & Hshape).
  rewrite Htr, drop_app_length in Hnew. subst new.
  destruct Hshape as [H|[H|(k' & tail & Hupd & H & Htail)]].
  - destruct pre; discriminate.
  - destruct pre as [|? [|]]; discriminate.
  - assert (pre = [UpdateToken 30] /\
            Fetch req lifetime
            = Fetch (request_config env endpoint options k') (expires_in k'))
      as [-> Hreq].
    { destruct pre as [|e1 [|e2 pre]]; simpl in H.
      - discriminate.
      - inversion H; subst; auto.
      - exfalso. inversion H; subst; clear H.
        destruct Htail as [Ht | [Ht | Ht]]; destruct pre as [|? [|]]; discriminate. }
    inversion Hreq; subst req lifetime; clear Hreq.
    split; [apply (Hcontract _ _ _ Hupd)|].
    split; [reflexivity|]. exists k'. split; [exact Hupd|]. split; [reflexivity|].
    unfold request_config. simpl. rewrite Hhdr. reflexivity.
Qed.

Lemma no_request_with_stale_credential_witness :
  let env := Demo.env_of (fun _ => inr (Demo.reply 200 (Some "2") "[]" (Some (VArr [])))) in
  let w := Demo.world_of Demo.blank in
  let req := request_config env "/roles" no_options
               {| token := Some "fresh-token"; expires_in := 300 |} in
  refresh_keeps_margin env 30 /\
  new_events (call env GetRealmRoles) w = [UpdateToken 30] ++ Fetch req 300 :: [ReadJson] /\
  ((30 <= 300)%Z /\
   [UpdateToken 30] = [UpdateToken 30] /\
   exists k',
     updateToken env (trace w) 30 (keycloak w) = inr k' /\
     300%Z = expires_in k' /\
     header "Authorization" (headers req) = Some ("Bearer " +:+ token_string (token k'))).
Proof.
  intros env w req.
  assert (refresh_keeps_margin env 30) as Hc.
  { intros tr k k'. simpl. unfold Demo.refresh.
    destruct (expires_in k <? 30)%Z eqn:Hlt; intros [= <-]; simpl.
    - lia.
    - apply Z.ltb_ge in Hlt. exact Hlt. }
  split; [exact Hc|]. split; [reflexivity|].
  exact (no_request_with_stale_credential env GetRealmRoles w
           [UpdateToken 30] req 300 [ReadJson] Hc eq_refl).
Defined.

(** ** How computations extend the log *)

Section Emits.

Context {A B : Type}.
Variable P : event -> Prop.

Lemma emits_ret (a : A) : emits P (ret a).
Proof. intros w. exists []. simpl. rewrite app_nil_r. auto. Qed.

Lemma emits_throw (e : exn) : emits P (@throw A e).
Proof. intros w. exists []. simpl. rewrite app_nil_r. auto. Qed.

Lemma emits_lift (r : result A) : emits P (lift r).
Proof. intros w. exists []. simpl. rewrite app_nil_r. auto. Qed.

Lemma emits_log (e : event) : P e -> emits P (log e).
Proof. intros He w. exists [e]. simpl. auto. Qed.

Lemma emits_set_ui f : emits P (set_ui f).
Proof. intros w. exists []. simpl. rewrite app_nil_r. auto. Qed.

Lemma emits_bind (m : M A) (k : A -> M B) :
  emits P m -> (forall a, emits P (k a)) -> emits P (bind m k).
Proof.
  intros Hm Hk w. unfold bind.
  destruct (Hm w) as (new1 & Htr1 & Hall1).
  destruct (m w) as [[a|e] w1]; simpl in *.
  - destruct (Hk a w1) as (new2 & Htr2 & Hall2).
    exists (new1 ++ new2). rewrite Htr2, Htr1, app_assoc.
    split; [reflexivity|]. apply Forall_app; auto.
  - exists new1. auto.
Qed.




End Emits.

Lemma emits_request env (P : event -> Prop) endpoint options :
  P (UpdateToken 30) -> P ReadText -> P ReadJson ->
  (forall k, P (Fetch (request_config env endpoint options k) (expires_in k))) ->
  emits P (_request env endpoint options).
Proof.
  intros Hu Ht Hj Hf w.
  destruct (request_trace env endpoint options w) as (new & Htr & Hshape).
  exists new. split; [exact Htr|].
  destruct Hshape as [-> | [-> | (k' & tail & _ & -> & Htail)]]; auto.
  repeat constructor; auto.
  destruct Htail as [-> | [-> | ->]]; auto.
Qed.

Lemma emits_new_events {A} (P : event -> Prop) (m : M A) w :
  emits P m -> Forall P (new_events m w).
Proof.
  intros Hm. destruct (Hm w) as (new & Htr & Hall).
  unfold new_events. rewrite Htr, drop_app_length. exact Hall.
Qed.

Lemma bind_ok {A B} (m : M A) (k : A -> M B) w b w' :
  bind m k w = (Ok b, w') ->
  exists a w1, m w = (Ok a, w1) /\ k a w1 = (Ok b, w').
Proof.
  unfold bind. destruct (m w) as [[a|e] w1]; [eauto|discriminate].
Qed.

(** ** Values *)

Lemma lookup_set_prop props k v : lookup_prop (set_prop props k v) k = v.
Proof.
  induction props as [|[k' v'] rest IH]; simpl.
  - rewrite String.eqb_refl. reflexivity.
  - destruct (String.eqb k' k) eqn:Hk; simpl.
    + rewrite String.eqb_refl. reflexivity.
    + rewrite Hk. exact IH.
Qed.

Lemma get_with_realmRoles user roles :
  get (with_realmRoles user roles) "realmRoles" = Ok (VArr roles).
Proof. unfold with_realmRoles, get. rewrite lookup_set_prop. reflexivity. Qed.

Lemma get_total v k : nullish v = false -> exists x, get v k = Ok x.
Proof. destruct v; simpl; try discriminate; eauto. Qed.

Lemma get_ok_nullish v k x : get v k = Ok x -> nullish v = false.
Proof. destruct v; simpl; try discriminate; reflexivity. Qed.

Lemma same_value_eq a b : same_value a b = true -> a = b.
Proof.
  destruct a, b; simpl; try discriminate; intros H; try reflexivity.
  - apply Bool.eqb_prop in H. congruence.
  - apply Z.eqb_eq in H. congruence.
  - apply String.eqb_eq in H. congruence.
Qed.

Lemma same_value_str s v : same_value v (VStr s) = true <-> v = VStr s.
Proof.
  split; [apply same_value_eq|]. intros ->. simpl. apply String.eqb_refl.
Qed.

Lemma includes_elem l v : includes l v = true -> v ∈ l.
Proof.
  unfold includes. rewrite existsb_exists. intros (x & Hin & Hx).
  apply same_value_eq in Hx. subst x. apply list_elem_of_In. exact Hin.
Qed.

Lemma includes_strings (names : list string) v :
  includes (map VStr names) v = true <-> exists n, v = VStr n /\ n ∈ names.
Proof.
  unfold includes. rewrite existsb_exists. split.
  - intros (x & Hin & Hx). apply in_map_iff in Hin as (n & <- & Hn).
    apply same_value_str in Hx. apply list_elem_of_In in Hn. eauto.
  - intros (n & -> & Hn). exists (VStr n). split.
    + apply in_map_iff. exists n. split; [reflexivity|].
      apply list_elem_of_In. exact Hn.
    + simpl. apply String.eqb_refl.
Qed.

Lemma includes_string (l : list value) s :
  includes l (VStr s) = true <-> VStr s ∈ l.
Proof.
  split; [apply includes_elem|]. intros Hin. unfold includes.
  apply existsb_exists. exists (VStr s). split.
  - apply list_elem_of_In. exact Hin.
  - simpl. apply String.eqb_refl.
Qed.

Lemma noise_strings realm :
  noise realm
  = map VStr ["offline_access"; "uma_authorization"; "default-roles-" +:+ realm].
Proof. reflexivity. Qed.

Lemma meaningful_spec realm names n :
  n ∈ meaningful realm names <-> n ∈ names /\ n ∉ noise realm.
Proof.
  unfold meaningful. rewrite list_elem_of_In, filter_In, <- list_elem_of_In.
  rewrite negb_true_iff. split; intros [Hin Hn]; (split; [exact Hin|]).
  - intros Hnoise. rewrite noise_strings in Hnoise, Hn.
    apply list_elem_of_In, in_map_iff in Hnoise as (s & <- & Hs).
    apply list_elem_of_In in Hs.
    assert (includes (map VStr ["offline_access"; "uma_authorization";
                                "default-roles-" +:+ realm]) (VStr s) = true)
      as Hyes by (apply includes_strings; eauto).
    congruence.
  - destruct (includes (noise realm) n) eqn:Hinc; [|reflexivity].
    apply includes_elem in Hinc. contradiction.
Qed.

(** ** [loadUsers] *)

Section LoadUsers.

Variable env : Env.




(** The callback of [loadUsers], case by case on the role fetch. *)
Lemma enrich_unfold user w id :
  get user "id" = Ok id ->
  exists uname,
    get user "username" = Ok uname /\
    enrich env user w =
      match getUserRealmRoles env id w with
      | (Ok userRoles, w1) =>
          match role_names userRoles with
          | Ok names => (Ok (with_realmRoles user (meaningful (realm env) names)), w1)
          | Throw e =>
              (Ok (with_realmRoles user []),
               snd (log (ConsoleWarn (warn_message uname) e) w1))
          end
      | (Throw e, w1) =>
          (Ok (with_realmRoles user []),
           snd (log (ConsoleWarn (warn_message uname) e) w1))
      end.
Proof.
  intros Hid.
  destruct (get_total user "username" (get_ok_nullish _ _ _ Hid)) as [uname Hname].
  exists uname. split; [exact Hname|].
  unfold enrich, try_catch, bind, lift, role_names. rewrite Hid, Hname.
  destruct (getUserRealmRoles env id w) as [[userRoles|e] w1]; [|reflexivity].
  destruct (as_array userRoles) as [roles|e]; [|reflexivity].
  destruct (map_result _ roles) as [names|e]; reflexivity.
Qed.

Lemma enrich_total user w :
  nullish user = false ->
  exists roles w', enrich env user w = (Ok (with_realmRoles user roles), w').
Proof.
  intros Hu. destruct (get_total user "id" Hu) as [id Hid].
  destruct (enrich_unfold user w id Hid) as (uname & _ & ->).
  destruct (getUserRealmRoles env id w) as [[userRoles|e] w1]; [|eauto].
  destruct (role_names userRoles); eauto.
Qed.


Lemma Promise_all_app_ok {A} (ms1 ms2 : list (M A)) w l1 w1 :
  Promise_all ms1 w = (Ok l1, w1) ->
  Promise_all (ms1 ++ ms2) w =
    match Promise_all ms2 w1 with
    | (Ok l2, w2) => (Ok (l1 ++ l2), w2)
    | (Throw e, w2) => (Throw e, w2)
    end.
Proof.
  revert w l1. induction ms1 as [|m ms1 IH]; intros w l1; simpl.
  - intros [= <- <-]. simpl. destruct (Promise_all ms2 w) as [[l2|e] w2]; reflexivity.
  - destruct (m w) as [[a|e] w'].
    + destruct (Promise_all ms1 w') as [[l|e] w''] eqn:Hrest; [|discriminate].
      intros [= <- <-]. rewrite (IH _ _ Hrest).
      destruct (Promise_all ms2 w'') as [[l2|e] w2]; reflexivity.
    + discriminate.
Qed.

End LoadUsers.

Lemma emits_run {A} (P : event -> Prop) (m : M A) w r w' :
  emits P m -> m w = (r, w') ->
  exists new, trace w' = trace w ++ new /\ Forall P new.
Proof. intros Hm Hrun. specialize (Hm w). rewrite Hrun in Hm. exact Hm. Qed.






Lemma Promise_all_ok_each {A} (ms : list (M A)) w l w' :
  Promise_all ms w = (Ok l, w') ->
  Forall2 (fun m x => exists w1 w2, m w1 = (Ok x, w2)) ms l.
Proof.
  revert w l. induction ms as [|m ms IH]; intros w l; simpl.
  - intros [= <- <-]. constructor.
  - destruct (m w) as [[a|e] w1] eqn:Hm; [|discriminate].
    destruct (Promise_all ms w1) as [[l'|e] w2] eqn:Hrest; [|discriminate].
    intros [= <- <-]. constructor; eauto.
Qed.

(** What the callback of [loadUsers] can return. *)
Lemma enrich_ok env u w x w' :
  enrich env u w = (Ok x, w') ->
  exists roles,
    x = with_realmRoles u roles /\
    (roles = [] \/
     exists id userRoles w2 names,
       get u "id" = Ok id /\
       getUserRealmRoles env id w = (Ok userRoles, w2) /\
       role_names userRoles = Ok names /\
       roles = meaningful (realm env) names).
Proof.
  destruct (get u "id") as [id|e] eqn:Hid.
  - destruct (enrich_unfold env u w id Hid) as (uname & _ & ->).
    destruct (getUserRealmRoles env id w) as [[userRoles|e] w1] eqn:Hfetch.
    + destruct (role_names userRoles) as [names|e] eqn:Hnames;
        intros [= <- <-]; eexists; (split; [reflexivity|]); [right|left]; eauto 10.
    + intros [= <- <-]. eexists; eauto.
  - unfold enrich, try_catch, bind, lift. rewrite Hid.
    destruct u; simpl in Hid; try discriminate; simpl; discriminate.
Qed.

Lemma not_noise realm n :
  n ∉ noise realm
  <-> n <> VStr "offline_access" /\ n <> VStr "uma_authorization"
      /\ n <> VStr ("default-roles-" +:+ realm).
Proof.
  unfold noise. rewrite !not_elem_of_cons. split.
  - intros (H1 & H2 & H3 & _). auto.
  - intros (H1 & H2 & H3). repeat (split; [assumption|]). apply not_elem_of_nil.
Qed.

Lemma Promise_all_enrich_clean env page w :
  Forall (fun u => nullish u = false) page ->
  exists enriched w',
    Promise_all (map (enrich env) page) w = (Ok enriched, w') /\
    Forall2 (fun u x => exists roles,
                          x = with_realmRoles u roles /\
                          get x "realmRoles" = Ok (VArr roles) /\
                          forall n, n ∈ noise (realm env) -> n ∉ roles)
            page enriched.
Proof.
  intros Hpage. revert w.
  induction Hpage as [|u page Hu _ IH]; intros w; simpl.
  - exists [], w. split; [reflexivity|constructor].
  - destruct (enrich_total env u w Hu) as (roles0 & w1 & Hrun).
    rewrite Hrun.
    destruct (IH w1) as (enriched & w2 & -> & Hall).
    eexists _, _. split; [reflexivity|]. constructor; [|exact Hall].
    apply enrich_ok in Hrun as (roles & -> & Hroles).
    exists roles. split; [reflexivity|]. split; [apply get_with_realmRoles|].
    destruct Hroles as [-> | (id & userRoles & w2' & names & _ & _ & _ & ->)].
    + intros n _ Hn. inversion Hn.
    + intros n Hnoise Hn. apply meaningful_spec in Hn as [_ Hn]. contradiction.
Qed.

(** C9. For every user of the page whose role fetch answers with the names
    [names], the entry that [loadUsers] stores at the place of that user is
    the user with, as [realmRoles], exactly [names] less the three noise
    names 'offline_access', 'uma_authorization' and 'default-roles-<realm>',
    in the order of the answer; and every entry stored for the page, this
    one and the others, is its user with a role list free of the three
    names. *)
Theorem enrichment_excludes_the_noise_names
    env c w data count w0 before u after id userRoles w2 names :
  Promise_all2 (getUsers env (page c * pageSize c) (pageSize c))
               (getUsersCount env) w = (Ok (VArr data, count), w0) ->
  Forall (fun u => nullish u = false) data ->
  data = before ++ u :: after ->
  get u "id" = Ok id ->
  getUserRealmRoles env id
    (after_enriching env before (snd (set_ui (setTotalUsers count) w0)))
    = (Ok userRoles, w2) ->
  role_names userRoles = Ok names ->
  exists w' x roles,
    loadUsers env c w = (Ok tt, w') /\
    users (ui w') !! length before = Some x /\
    x = with_realmRoles u roles /\
    get x "realmRoles" = Ok (VArr roles) /\
    roles
    = List.filter
        (fun n => negb (includes [VStr "offline_access"; VStr "uma_authorization";
                                  VStr ("default-roles-" +:+ realm env)] n))
        names /\
    (forall n, n ∈ roles <->
               n ∈ names /\ n <> VStr "offline_access"
               /\ n <> VStr "uma_authorization"
               /\ n <> VStr ("default-roles-" +:+ realm env)) /\
    Forall2 (fun u x => exists rs,
                          x = with_realmRoles u rs /\
                          get x "realmRoles" = Ok (VArr rs) /\
                          forall n, n ∈ rs ->
                                    n <> VStr "offline_access"
                                    /\ n <> VStr "uma_authorization"
                                    /\ n <> VStr ("default-roles-" +:+ realm env))
            data (users (ui w')).
Proof.
  intros Hpage Husers -> Hid Hfetch Hnames.
  apply Forall_app in Husers as [Hbefore Hrest].
  apply Forall_cons in Hrest as [Hu Hafter].
  set (w0' := snd (set_ui (setTotalUsers count) w0)) in *.
  destruct (Promise_all_enrich_clean env before w0' Hbefore)
    as (es1 & w1 & Hrun1 & Hall1).
  unfold after_enriching in Hfetch. rewrite Hrun1 in Hfetch. simpl in Hfetch.
  destruct (enrich_unfold env u w1 id Hid) as (uname & Hname & Hrun).
  rewrite Hfetch, Hnames in Hrun.
  destruct (Promise_all_enrich_clean env after w2 Hafter)
    as (es2 & w3 & Hrun3 & Hall3).
  set (roles := meaningful (realm env) names) in *.
  assert (Promise_all (map (enrich env) (before ++ u :: after)) w0'
          = (Ok (es1 ++ with_realmRoles u roles :: es2), w3)) as Hall.
  { rewrite map_app. rewrite (Promise_all_app_ok _ _ _ _ _ Hrun1). simpl.
    rewrite Hrun, Hrun3. reflexivity. }
  assert (loadUsers env c w
          = (Ok tt, snd (set_ui (setUsers (es1 ++ with_realmRoles u roles :: es2)) w3)))
    as Hload.
  { unfold loadUsers, bind. rewrite Hpage. cbn [fst snd set_ui lift as_array].
    unfold w0' in Hall. cbn [set_ui snd] in Hall. rewrite Hall. reflexivity. }
  assert (length es1 = length before) as Hlen1
    by (symmetry; eapply Forall2_length; eauto).
  assert (forall rs : list value,
            (forall n, n ∈ noise (realm env) -> n ∉ rs) ->
            forall n, n ∈ rs ->
                      n <> VStr "offline_access" /\ n <> VStr "uma_authorization"
                      /\ n <> VStr ("default-roles-" +:+ realm env)) as Hclean.
  { intros rs Hrs n Hn. apply not_noise. intros Hnoise. exact (Hrs n Hnoise Hn). }
  eexists _, (with_realmRoles u roles), roles.
  split; [exact Hload|]. simpl.
  split; [|split; [reflexivity|split; [apply get_with_realmRoles|split;
    [reflexivity|split]]]].
  - rewrite <- Hlen1. rewrite lookup_app_r by lia.
    rewrite Nat.sub_diag. reflexivity.
  - intros n. unfold roles. rewrite meaningful_spec, not_noise. reflexivity.
  - apply Forall2_app; [|constructor].
    + eapply Forall2_impl; [exact Hall1|].
      intros u' x' (rs & -> & Hget & Hrs). exists rs. eauto.
    + exists roles. split; [reflexivity|]. split; [apply get_with_realmRoles|].
      intros n Hn. unfold roles in Hn. apply meaningful_spec in Hn as [_ Hn].
      apply not_noise. exact Hn.
    + eapply Forall2_impl; [exact Hall3|].
      intros u' x' (rs & -> & Hget & Hrs). exists rs. eauto.
Qed.

Lemma enrichment_excludes_the_noise_names_witness :
  let env := Demo.env_of Demo.directory in
  let w := Demo.world_of Demo.blank in
  exists w',
    loadUsers env Demo.blank w = (Ok tt, w') /\
    users (ui w') !! 0%nat = Some (with_realmRoles Demo.alice [VStr "admin"]).
Proof.
  intros env w.
  destruct (enrichment_excludes_the_noise_names env Demo.blank w
              [Demo.alice; Demo.bob] (Some 2%Z)
              (snd (Promise_all2 (getUsers env 0 5) (getUsersCount env) w))
              [] Demo.alice [Demo.bob] (VStr "u1")
              (VArr [Demo.role "r1" "admin"; Demo.role "r7" "offline_access";
                     Demo.role "r8" "default-roles-my-react-app"])
              (snd (getUserRealmRoles env (VStr "u1")
                      (snd (set_ui (setTotalUsers (Some 2%Z))
                              (snd (Promise_all2 (getUsers env 0 5)
                                      (getUsersCount env) w))))))
              [VStr "admin"; VStr "offline_access";
               VStr "default-roles-my-react-app"])
    as (w' & x & roles & Hload & Hlook & -> & _ & -> & _).
  - vm_compute. reflexivity.
  - repeat constructor.
  - reflexivity.
  - reflexivity.
  - vm_compute. reflexivity.
  - reflexivity.
  - exists w'. split; [exact Hload|]. exact Hlook.
Defined.

(** ** [AuditLog] *)

(** C8. For a page of at most [pageSize] events, the Next control is enabled
    exactly when the page holds [pageSize] events; with fewer it is
    disabled. *)
Theorem has_more_exactly_on_a_full_page (st : AuditLog.State) :
  (Z.of_nat (length (AuditLog.events st)) <= AuditLog.pageSize st)%Z ->
  (AuditLog.has_more st = true
   <-> Z.of_nat (length (AuditLog.events st)) = AuditLog.pageSize st)
  /\ ((Z.of_nat (length (AuditLog.events st)) < AuditLog.pageSize st)%Z ->
      AuditLog.has_more st = false /\ AuditLog.next_disabled st = true).
Proof.
  intros Hle. unfold AuditLog.has_more, AuditLog.next_disabled.
  destruct (Z.ltb_spec (Z.of_nat (length (AuditLog.events st))) (AuditLog.pageSize st))
    as [Hlt|Hge]; simpl.
  - split; [split; [discriminate|lia]|auto].
  - split; [split; [lia|reflexivity]|lia].
Qed.

Lemma has_more_exactly_on_a_full_page_witness :
  let full := {| AuditLog.events := [VNum 1; VNum 2; VNum 3];
                 AuditLog.page := 0; AuditLog.pageSize := 3 |} in
  (Z.of_nat (length (AuditLog.events full)) <= AuditLog.pageSize full)%Z /\
  AuditLog.has_more full = true.
Proof.
  intros full.
  assert (Z.of_nat (length (AuditLog.events full)) <= AuditLog.pageSize full)%Z
    as Hle by (simpl; lia).
  split; [exact Hle|].
  apply (proj1 (has_more_exactly_on_a_full_page full Hle)). reflexivity.
Defined.

(** ** [performUpdate] *)

Lemma emits_bind_lift {A B} (P : event -> Prop) (r : result A) (k : A -> M B) :
  (forall a, r = Ok a -> emits P (k a)) -> emits P (bind (lift r) k).
Proof.
  intros Hk w. unfold bind, lift. destruct r as [a|e].
  - apply (Hk a eq_refl).
  - exists []. simpl. rewrite app_nil_r. auto.
Qed.

Lemma bind_lift_ok {A B} (r : result A) (k : A -> M B) w b w' :
  bind (lift r) k w = (Ok b, w') -> exists a, r = Ok a /\ k a w = (Ok b, w').
Proof. unfold bind, lift. destruct r as [a|e]; [eauto|discriminate]. Qed.

Ltac emits_steps :=
  repeat match goal with
    | |- emits _ (ret _) => apply emits_ret
    | |- emits _ (throw _) => apply emits_throw
    | |- emits _ (lift _) => apply emits_lift
    | |- emits _ (set_ui _) => apply emits_set_ui
    | |- emits _ (bind (lift _) _) => apply emits_bind_lift; intros ? ?
    | |- emits _ (bind _ _) => apply emits_bind; [|intros ?]
    end.

Lemma elem_of_selected_names (m : gmap string bool) n :
  n ∈ selected_names m <-> m !! n = Some true.
Proof.
  unfold selected_names, Object_keys.
  rewrite list_elem_of_In, filter_In, <- list_elem_of_In, list_elem_of_fmap.
  split.
  - intros [_ H]. destruct (m !! n) as [[]|]; simpl in H; congruence.
  - intros H. split; [|rewrite H; reflexivity].
    exists (n, true). split; [reflexivity|]. apply elem_of_map_to_list. exact H.
Qed.

Lemma elem_of_toAddNames (C D : list string) n :
  n ∈ List.filter (fun r => negb (includes (map VStr C) (VStr r))) D
  <-> n ∈ D /\ n ∉ C.
Proof.
  rewrite list_elem_of_In, filter_In, <- list_elem_of_In, negb_true_iff.
  split; intros [HD HC]; (split; [exact HD|]).
  - intros Hin.
    assert (includes (map VStr C) (VStr n) = true) as Hyes
      by (apply includes_strings; eauto).
    congruence.
  - destruct (includes (map VStr C) (VStr n)) eqn:Hinc; [|reflexivity].
    apply includes_strings in Hinc as (n' & [= <-] & Hin). contradiction.
Qed.

Lemma elem_of_toRemoveNames (C D : list string) v :
  v ∈ List.filter (fun r => negb (includes (map VStr D) r)) (map VStr C)
  <-> exists n, v = VStr n /\ n ∈ C /\ n ∉ D.
Proof.
  rewrite list_elem_of_In, filter_In, in_map_iff, negb_true_iff. split.
  - intros [(n & <- & HC) HD]. exists n. split; [reflexivity|].
    split; [apply list_elem_of_In; exact HC|]. intros Hin.
    assert (includes (map VStr D) (VStr n) = true) as Hyes
      by (apply includes_strings; eauto).
    congruence.
  - intros (n & -> & HC & HD). split.
    + exists n. split; [reflexivity|]. apply list_elem_of_In. exact HC.
    + destruct (includes (map VStr D) (VStr n)) eqn:Hinc; [|reflexivity].
      apply includes_strings in Hinc as (n' & [= <-] & Hin). contradiction.
Qed.

Lemma filter_result_ok {A} (p : A -> result bool) l kept x :
  filter_result p l = Ok kept ->
  x ∈ kept <-> x ∈ l /\ p x = Ok true.
Proof.
  revert kept. induction l as [|y l IH]; intros kept; simpl.
  - intros [= <-]. split; [intros H; inversion H|intros [H _]; inversion H].
  - destruct (p y) as [b|e] eqn:Hy; [|discriminate].
    destruct (filter_result p l) as [ys|e]; [|discriminate].
    intros [= <-]. specialize (IH ys eq_refl). rewrite elem_of_cons.
    destruct b.
    + rewrite elem_of_cons, IH. split.
      * intros [-> | [H1 H2]]; auto.
      * intros [[-> | H1] H2]; auto.
    + rewrite IH. split.
      * intros [H1 H2]; auto.
      * intros [[-> | H1] H2]; [congruence|auto].
Qed.

Lemma name_in_total names r :
  nullish r = false -> exists b, name_in names r = Ok b.
Proof.
  intros Hr. unfold name_in. destruct (get_total r "name" Hr) as [n ->]. eauto.
Qed.

Lemma filter_result_total {A} (p : A -> result bool) l :
  Forall (fun x => exists b, p x = Ok b) l -> exists kept, filter_result p l = Ok kept.
Proof.
  induction 1 as [|x l [b Hx] _ [kept IH]]; simpl; [eauto|].
  rewrite Hx, IH. eauto.
Qed.

Lemma request_ok_fetches env endpoint options w v w' :
  _request env endpoint options w = (Ok v, w') ->
  exists k' tail,
    trace w' = trace w
               ++ UpdateToken 30
               :: Fetch (request_config env endpoint options k') (expires_in k')
               :: tail.
Proof.
  intros Hrun.
  destruct (no_token (token (keycloak w))) eqn:Htok.
  { unfold _request, bind, get_keycloak in Hrun; simpl in Hrun.
    rewrite Htok in Hrun. discriminate. }
  destruct (updateToken env (trace w) 30 (keycloak w)) as [e|k'] eqn:Hupd.
  { unfold _request, bind, get_keycloak, keycloak_updateToken in Hrun; simpl in Hrun.
    rewrite Htok in Hrun; simpl in Hrun. rewrite Hupd in Hrun. discriminate. }
  destruct (serve env (trace w ++ [UpdateToken 30])
              (request_config env endpoint options k')) as [dt [e|resp]] eqn:Hsrv.
  { unfold _request, bind, get_keycloak, keycloak_updateToken, fetch in Hrun;
      simpl in Hrun.
    rewrite Htok in Hrun; simpl in Hrun. rewrite Hupd in Hrun; simpl in Hrun.
    rewrite Hsrv in Hrun. discriminate. }
  rewrite (request_unfold env _ _ _ _ _ _ Htok Hupd Hsrv) in Hrun; simpl in Hrun.
  exists k'.
  destruct (ok resp); simpl in Hrun.
  - destruct (bool_decide _ || _); injection Hrun as _ <-; simpl;
      rewrite <- !app_assoc; simpl; eauto.
  - destruct (status resp =? 403)%Z; [discriminate|].
    destruct (status resp =? 409)%Z; discriminate.
Qed.

Section Reconcile.

Variable env : Env.
Variable c : Component.
Variable C : list string.

Hypothesis Hediting : truthy (editingUser c) = true.
Hypothesis Hcurrent : current_role_names (editingUser c) = Ok (map VStr C).

Local Abbreviation D := (selected_names (selectedRoles (formData c))).
Local Abbreviation toAdd := (List.filter (fun r => negb (includes (map VStr C) (VStr r))) D).
Local Abbreviation toRemove :=
  (List.filter (fun r => negb (includes (map VStr D) r)) (map VStr C)).

Lemma current_is_C realmRoles currentRoleNames :
  get (editingUser c) "realmRoles" = Ok realmRoles ->
  as_array (if truthy realmRoles then realmRoles else VArr []) = Ok currentRoleNames ->
  currentRoleNames = map VStr C.
Proof.
  intros H1 H2. unfold current_role_names in Hcurrent.
  rewrite H1, H2 in Hcurrent. congruence.
Qed.

Lemma emits_password_step (P : event -> Prop) :
  (forall req lifetime, method req = Some "PUT" -> P (Fetch req lifetime)) ->
  P (UpdateToken 30) -> P ReadText -> P ReadJson ->
  emits P (if truthy (VStr (password (formData c)))
           then let* id := lift (get (editingUser c) "id") in
                let* _ := resetPassword env id (password (formData c)) in
                ret tt
           else ret tt).
Proof.
  intros Hput Hu Ht Hj.
  destruct (truthy (VStr (password (formData c)))); emits_steps.
  unfold resetPassword. apply emits_request; auto.
Qed.

Lemma emits_grant_step (P : event -> Prop) (names : list string) :
  (forall req lifetime, method req = Some "POST" -> P (Fetch req lifetime)) ->
  P (UpdateToken 30) -> P ReadText -> P ReadJson ->
  emits P (if (0 <? length names)%nat
           then let* rolesToAdd :=
                  lift (filter_result (name_in (map VStr names)) (availableRoles c)) in
                let* id := lift (get (editingUser c) "id") in
                let* _ := addRealmRoleMappings env id (VArr rolesToAdd) in
                ret tt
           else ret tt).
Proof.
  intros Hpost Hu Ht Hj. destruct (0 <? length names)%nat; emits_steps.
  unfold addRealmRoleMappings. apply emits_request; auto.
Qed.

Lemma emits_revoke_step (P : event -> Prop) (names : list value) :
  (forall req lifetime, method req = Some "DELETE" -> P (Fetch req lifetime)) ->
  P (UpdateToken 30) -> P ReadText -> P ReadJson ->
  emits P (if (0 <? length names)%nat
           then let* rolesToRemove :=
                  lift (filter_result (name_in names) (availableRoles c)) in
                if (0 <? length rolesToRemove)%nat
                then let* id := lift (get (editingUser c) "id") in
                     let* _ := removeRealmRoleMappings env id (VArr rolesToRemove) in
                     ret tt
                else ret tt
           else ret tt).
Proof.
  intros Hdel Hu Ht Hj. destruct (0 <? length names)%nat; emits_steps.
  destruct (0 <? length a)%nat; emits_steps.
  unfold removeRealmRoleMappings. apply emits_request; auto.
Qed.

Lemma no_grant_without_additions :
  toAdd = [] -> emits (fun e => is_grant e = false) (performUpdate env c).
Proof.
  intros Hnone. unfold performUpdate. rewrite Hediting. simpl negb. cbv iota.
  apply emits_bind.
  { apply emits_password_step; try reflexivity.
    intros req lt Hm. simpl. rewrite Hm. reflexivity. }
  intros _. apply emits_bind_lift. intros realmRoles Hrr.
  apply emits_bind_lift. intros current Hcur.
  rewrite (current_is_C _ _ Hrr Hcur). rewrite Hnone. simpl.
  emits_steps.
  - apply emits_revoke_step; try reflexivity.
    intros req lt Hm. simpl. rewrite Hm. reflexivity.
  - apply emits_log. reflexivity.
Qed.

Lemma no_revoke_without_known_removals :
  (forall kept,
     filter_result (name_in toRemove) (availableRoles c) = Ok kept -> kept = []) ->
  emits (fun e => is_revoke e = false) (performUpdate env c).
Proof.
  intros Hnone. unfold performUpdate. rewrite Hediting. simpl negb. cbv iota.
  apply emits_bind.
  { apply emits_password_step; try reflexivity.
    intros req lt Hm. simpl. rewrite Hm. reflexivity. }
  intros _. apply emits_bind_lift. intros realmRoles Hrr.
  apply emits_bind_lift. intros current Hcur.
  rewrite (current_is_C _ _ Hrr Hcur).
  apply emits_bind.
  { apply emits_grant_step; try reflexivity.
    intros req lt Hm. simpl. rewrite Hm. reflexivity. }
  intros _. apply emits_bind; [|intros _; apply emits_log; reflexivity].
  destruct (0 <? length toRemove)%nat; [|apply emits_ret].
  apply emits_bind_lift. intros kept Hkept.
  rewrite (Hnone _ Hkept). simpl. apply emits_ret.
Qed.

Lemma emits_anything_after_grant :
  emits (fun _ => True)
    (let* _ :=
       if (0 <? length toRemove)%nat
       then let* rolesToRemove :=
              lift (filter_result (name_in toRemove) (availableRoles c)) in
            if (0 <? length rolesToRemove)%nat
            then let* id := lift (get (editingUser c) "id") in
                 let* _ := removeRealmRoleMappings env id (VArr rolesToRemove) in
                 ret tt
            else ret tt
       else ret tt in
     log (Alert ("User " +:+ username (formData c) +:+ " updated!"))).
Proof.
  apply emits_bind; [apply emits_revoke_step; auto|].
  intros _. apply emits_log. exact I.
Qed.

Lemma issued_elem (kind : event -> bool) (l : list event) e :
  e ∈ l -> kind e = true -> issued kind l = true.
Proof.
  intros Hin He. unfold issued. apply existsb_exists. exists e.
  split; [apply list_elem_of_In; exact Hin|exact He].
Qed.

Lemma grant_when_completed w w' :
  performUpdate env c w = (Ok tt, w') ->
  toAdd <> [] ->
  issued is_grant (new_events (performUpdate env c) w) = true.
Proof.
  intros Hrun Hsome. unfold new_events. rewrite Hrun. cbn [snd].
  unfold performUpdate in Hrun. rewrite Hediting in Hrun.
  simpl negb in Hrun. cbv iota in Hrun.
  apply bind_ok in Hrun as ([] & w1 & Hpw & Hrun).
  apply bind_lift_ok in Hrun as (realmRoles & Hrr & Hrun).
  apply bind_lift_ok in Hrun as (current & Hcur & Hrun).
  rewrite (current_is_C _ _ Hrr Hcur) in Hrun.
  apply bind_ok in Hrun as ([] & w2 & Hgrant & Hrest).
  destruct toAdd as [|n rest] eqn:Hadd; [congruence|]. simpl in Hgrant.
  apply bind_lift_ok in Hgrant as (roles & _ & Hgrant).
  apply bind_lift_ok in Hgrant as (id & _ & Hgrant).
  apply bind_ok in Hgrant as (v & w2' & Hcall & Hret).
  injection Hret as <-.
  apply request_ok_fetches in Hcall as (k' & tail & Htr2).
  destruct (emits_run _ _ _ _ _
              (emits_password_step (fun _ => True)
                 (fun _ _ _ => I) I I I) Hpw) as (n1 & Htr1 & _).
  destruct (emits_run _ _ _ _ _ emits_anything_after_grant Hrest)
    as (n3 & Htr3 & _).
  rewrite Htr3, Htr2, Htr1, <- !app_assoc, drop_app_length.
  eapply issued_elem;
    [rewrite !elem_of_app, !elem_of_cons; right; left; right; left; reflexivity|].
  reflexivity.
Qed.

Lemma revoke_when_completed w w' r n :
  performUpdate env c w = (Ok tt, w') ->
  r ∈ availableRoles c -> get r "name" = Ok (VStr n) -> n ∈ C -> n ∉ D ->
  issued is_revoke (new_events (performUpdate env c) w) = true.
Proof.
  intros Hrun Hr Hname HC HD. unfold new_events. rewrite Hrun. cbn [snd].
  unfold performUpdate in Hrun. rewrite Hediting in Hrun.
  simpl negb in Hrun. cbv iota in Hrun.
  apply bind_ok in Hrun as ([] & w1 & Hpw & Hrun).
  apply bind_lift_ok in Hrun as (realmRoles & Hrr & Hrun).
  apply bind_lift_ok in Hrun as (current & Hcur & Hrun).
  rewrite (current_is_C _ _ Hrr Hcur) in Hrun.
  apply bind_ok in Hrun as ([] & w2 & Hgrant & Hrun).
  apply bind_ok in Hrun as ([] & w3 & Hrevoke & Halert).
  assert (VStr n ∈ toRemove) as Hin by (apply elem_of_toRemoveNames; eauto).
  assert ((0 <? length toRemove)%nat = true) as Hlen.
  { destruct toRemove; [inversion Hin|reflexivity]. }
  rewrite Hlen in Hrevoke.
  apply bind_lift_ok in Hrevoke as (kept & Hkept & Hrevoke).
  assert (r ∈ kept) as Hkeep.
  { apply (filter_result_ok _ _ _ _ Hkept). split; [exact Hr|].
    unfold name_in. rewrite Hname.
    rewrite (proj2 (includes_string _ _) Hin). reflexivity. }
  assert ((0 <? length kept)%nat = true) as Hlen'.
  { destruct kept; [inversion Hkeep|reflexivity]. }
  rewrite Hlen' in Hrevoke.
  apply bind_lift_ok in Hrevoke as (id & _ & Hrevoke).
  apply bind_ok in Hrevoke as (v & w3' & Hcall & Hret).
  injection Hret as <-.
  apply request_ok_fetches in Hcall as (k' & tail & Htr3).
  destruct (emits_run _ _ _ _ _
              (emits_password_step (fun _ => True) (fun _ _ _ => I) I I I) Hpw)
    as (n1 & Htr1 & _).
  destruct (emits_run _ _ _ _ _
              (emits_grant_step (fun _ => True) _ (fun _ _ _ => I) I I I) Hgrant)
    as (n2 & Htr2 & _).
  destruct (emits_run _ _ _ _ _ (emits_log (fun _ => True) _ I) Halert)
    as (n4 & Htr4 & _).
  rewrite Htr4, Htr3, Htr2, Htr1, <- !app_assoc, drop_app_length.
  eapply issued_elem;
    [rewrite !elem_of_app, !elem_of_cons;
     right; right; left; right; left; reflexivity|].
  reflexivity.
Qed.

End Reconcile.

Lemma not_issued (kind : event -> bool) (l : list event) :
  Forall (fun e => kind e = false) l -> issued kind l = false.
Proof.
  unfold issued. induction 1 as [|e l He _ IH]; simpl; [reflexivity|].
  rewrite He, IH. reflexivity.
Qed.

(** C1 (as amended). [performUpdate] sends a grant call only when D−C is not
    empty, and a revoke call only when some role of the catalog is named in
    C−D. On a run that completes it sends the grant call exactly when D−C is
    not empty and the revoke call exactly when the catalog has a role named
    in C−D. When D equals C it sends neither. *)
Theorem reconcile_calls_follow_the_diff env c w C :
  truthy (editingUser c) = true ->
  current_role_names (editingUser c) = Ok (map VStr C) ->
  let D := selected_names (selectedRoles (formData c)) in
  let new := new_events (performUpdate env c) w in
  let to_grant := exists n, n ∈ D /\ n ∉ C in
  let to_revoke :=
    exists r n, r ∈ availableRoles c /\ get r "name" = Ok (VStr n) /\
                n ∈ C /\ n ∉ D in
  (issued is_grant new = true -> to_grant) /\
  (issued is_revoke new = true -> to_revoke) /\
  (fst (performUpdate env c w) = Ok tt ->
   (to_grant -> issued is_grant new = true) /\
   (to_revoke -> issued is_revoke new = true)) /\
  ((forall n, n ∈ D <-> n ∈ C) ->
   issued is_grant new = false /\ issued is_revoke new = false).
Proof.
  intros Hediting Hcurrent D new to_grant to_revoke.
  assert (issued is_grant new = true -> to_grant) as Hgrant.
  { intros Hissued.
    destruct (List.filter (fun r => negb (includes (map VStr C) (VStr r))) D)
      as [|n rest] eqn:Hadd.
    - pose proof (emits_new_events _ _ w
                    (no_grant_without_additions env c C Hediting Hcurrent Hadd))
        as Hnone.
      apply not_issued in Hnone. fold new in Hnone. congruence.
    - exists n. apply (elem_of_toAddNames C D). rewrite Hadd. apply list_elem_of_here. }
  assert (issued is_revoke new = true -> to_revoke) as Hrevoke.
  { intros Hissued.
    destruct (filter_result
                (name_in (List.filter (fun r => negb (includes (map VStr D) r))
                                      (map VStr C)))
                (availableRoles c)) as [[|r kept]|e] eqn:Hkept.
    - exfalso.
      assert (issued is_revoke new = false); [|congruence].
      apply not_issued, emits_new_events.
      apply (no_revoke_without_known_removals env c C Hediting Hcurrent).
      fold D. intros kept'. rewrite Hkept. congruence.
    - assert (r ∈ r :: kept) as Hr by apply list_elem_of_here.
      apply (filter_result_ok _ _ _ _ Hkept) in Hr as [Hr Hname].
      unfold name_in in Hname.
      destruct (get r "name") as [v|] eqn:Hv; [|discriminate].
      injection Hname as Hname. apply includes_elem in Hname.
      apply elem_of_toRemoveNames in Hname as (n & -> & HC & HD).
      exists r, n. auto.
    - exfalso.
      assert (issued is_revoke new = false); [|congruence].
      apply not_issued, emits_new_events.
      apply (no_revoke_without_known_removals env c C Hediting Hcurrent).
      fold D. intros kept'. rewrite Hkept. discriminate. }
  split; [exact Hgrant|]. split; [exact Hrevoke|]. split.
  - intros Hok.
    destruct (performUpdate env c w) as [r w'] eqn:Hrun. simpl in Hok. subst r.
    split.
    + intros (n & HD & HC). unfold new.
      apply (grant_when_completed env c C Hediting Hcurrent w w' Hrun).
      intros Hnil.
      assert (n ∈ List.filter (fun r => negb (includes (map VStr C) (VStr r))) D)
        as Hin by (apply elem_of_toAddNames; auto).
      unfold D in Hin. rewrite Hnil in Hin. inversion Hin.
    + intros (r & n & Hr & Hname & HC & HD). unfold new.
      apply (revoke_when_completed env c C Hediting Hcurrent w w' r n Hrun);
        assumption.
  - intros Hsame. split.
    + destruct (issued is_grant new) eqn:Hg; [|reflexivity].
      destruct (Hgrant eq_refl) as (n & HD & HC). apply Hsame in HD. contradiction.
    + destruct (issued is_revoke new) eqn:Hr; [|reflexivity].
      destruct (Hrevoke eq_refl) as (r & n & _ & _ & HC & HD).
      apply Hsame in HC. contradiction.
Qed.

Lemma reconcile_calls_follow_the_diff_witness :
  let env := Demo.env_of Demo.directory in
  let c := Demo.editing (with_realmRoles Demo.alice [VStr "doctor"])
             (Demo.form_of "alice" EmptyString
                {[ "doctor" := true; "admin" := true ]}) in
  let w := Demo.world_of c in
  truthy (editingUser c) = true /\
  current_role_names (editingUser c) = Ok (map VStr ["doctor"]) /\
  issued is_grant (new_events (performUpdate env c) w) = true /\
  exists n, n ∈ selected_names (selectedRoles (formData c)) /\ n ∉ ["doctor"].
Proof.
  intros env c w.
  assert (truthy (editingUser c) = true) as H1 by reflexivity.
  assert (current_role_names (editingUser c) = Ok (map VStr ["doctor"])) as H2
    by reflexivity.
  assert (issued is_grant (new_events (performUpdate env c) w) = true) as H3
    by (vm_compute; reflexivity).
  split; [exact H1|]. split; [exact H2|]. split; [exact H3|].
  exact (proj1 (reconcile_calls_follow_the_diff env c w ["doctor"] H1 H2) H3).
Defined.

(** C1, the counterexample: the user holds a role that the catalog does not
    list and the form selects nothing, so C−D is not empty; the update
    completes and sends no revoke call. *)
Lemma no_revoke_call_for_a_role_outside_the_catalog :
  let env := Demo.env_of Demo.directory in
  let c := Demo.editing (with_realmRoles Demo.alice [VStr "hidden"])
             (Demo.form_of "alice" EmptyString ∅) in
  let w := Demo.world_of c in
  let C := ["hidden"] in
  let D := selected_names (selectedRoles (formData c)) in
  current_role_names (editingUser c) = Ok (map VStr C) /\
  ("hidden" ∈ C /\ "hidden" ∉ D) /\
  fst (performUpdate env c w) = Ok tt /\
  issued is_revoke (new_events (performUpdate env c) w) = false.
Proof.
  intros env c w C D. split; [reflexivity|]. split; [|split].
  - split; [apply list_elem_of_here|]. intros H. vm_compute in H. inversion H.
  - vm_compute. reflexivity.
  - vm_compute. reflexivity.
Qed.

Lemma name_in_strings (names : list string) r :
  name_in (map VStr names) r = Ok true
  <-> exists n, get r "name" = Ok (VStr n) /\ n ∈ names.
Proof.
  unfold name_in. split.
  - destruct (get r "name") as [v|e]; [|discriminate].
    intros [= Hinc]. apply includes_strings in Hinc as (n & -> & Hn). eauto.
  - intros (n & -> & Hn). f_equal. apply includes_strings. eauto.
Qed.

Lemma name_in_toRemoveNames (C D : list string) r :
  name_in (List.filter (fun r => negb (includes (map VStr D) r)) (map VStr C)) r
  = Ok true
  <-> exists n, get r "name" = Ok (VStr n) /\ n ∈ C /\ n ∉ D.
Proof.
  unfold name_in. split.
  - destruct (get r "name") as [v|e]; [|discriminate].
    intros [= Hinc]. apply includes_elem, elem_of_toRemoveNames in Hinc.
    destruct Hinc as (n & -> & Hn). eauto.
  - intros (n & -> & Hn). f_equal. apply includes_string, elem_of_toRemoveNames.
    eauto.
Qed.

Lemma truthy_not_nullish v : truthy v = true -> nullish v = false.
Proof. destruct v; simpl; congruence. Qed.

Section Payload.

Variable env : Env.
Variable c : Component.
Variable C : list string.

Hypothesis Hediting : truthy (editingUser c) = true.
Hypothesis Hcurrent : current_role_names (editingUser c) = Ok (map VStr C).

Lemma performUpdate_payloads :
  emits (reconcile_payload env c C) (performUpdate env c).
Proof.
  unfold performUpdate. rewrite Hediting. simpl negb. cbv iota.
  apply emits_bind.
  { apply emits_password_step; try exact I.
    intros req lt Hm. simpl. rewrite Hm. split; discriminate. }
  intros _. apply emits_bind_lift. intros realmRoles Hrr.
  apply emits_bind_lift. intros current Hcur.
  rewrite (current_is_C c C Hcurrent _ _ Hrr Hcur).
  apply emits_bind; [|intros _; apply emits_bind; [|intros _; apply emits_log; exact I]].
  - destruct (0 <? length _)%nat; [|apply emits_ret].
    apply emits_bind_lift. intros roles Hroles.
    apply emits_bind_lift. intros id _.
    apply emits_bind; [|intros _; apply emits_ret].
    unfold addRealmRoleMappings. apply emits_request; try exact I.
    intros k. simpl. split; [|discriminate]. intros _.
    exists roles. split; [reflexivity|]. intros r.
    rewrite (filter_result_ok _ _ _ r Hroles), name_in_strings.
    split; intros [Hr (n & Hname & Hn)]; (split; [exact Hr|]); exists n;
      (split; [exact Hname|]); apply elem_of_toAddNames; exact Hn.
  - destruct (0 <? length _)%nat; [|apply emits_ret].
    apply emits_bind_lift. intros roles Hroles.
    destruct (0 <? length roles)%nat; [|apply emits_ret].
    apply emits_bind_lift. intros id _.
    apply emits_bind; [|intros _; apply emits_ret].
    unfold removeRealmRoleMappings. apply emits_request; try exact I.
    intros k. simpl. split; [discriminate|]. intros _.
    exists roles. split; [reflexivity|]. intros r.
    rewrite (filter_result_ok _ _ _ r Hroles), name_in_toRemoveNames.
    reflexivity.
Qed.

Hypothesis Hcatalog : Forall (fun r => nullish r = false) (availableRoles c).
Hypothesis Henv : always_succeeds env.

Lemma catalog_filter_total names :
  exists kept, filter_result (name_in names) (availableRoles c) = Ok kept.
Proof.
  apply filter_result_total. eapply Forall_impl; [exact Hcatalog|].
  intros r Hr. apply name_in_total. exact Hr.
Qed.

Lemma performUpdate_completes w :
  no_token (token (keycloak w)) = false ->
  fst (performUpdate env c w) = Ok tt.
Proof.
  intros Htok. unfold performUpdate. rewrite Hediting. cbn [negb]. cbv beta iota zeta.
  destruct (get_total (editingUser c) "id" (truthy_not_nullish _ Hediting))
    as [id Hid].
  unfold current_role_names in Hcurrent.
  destruct (get (editingUser c) "realmRoles") as [realmRoles|] eqn:Hrr;
    [|discriminate].
  assert (exists w1,
            (if truthy (VStr (password (formData c)))
             then let* id := lift (get (editingUser c) "id") in
                  let* _ := resetPassword env id (password (formData c)) in
                  ret tt
             else ret tt) w = (Ok tt, w1) /\
            no_token (token (keycloak w1)) = false) as (w1 & Hpw & Htok1).
  { destruct (truthy (VStr (password (formData c)))); [|eauto].
    unfold bind, lift. rewrite Hid. unfold resetPassword.
    match goal with
    | |- context [_request env ?ep ?opts w] =>
        destruct (Henv ep opts w Htok) as (v & w1 & -> & Htok1)
    end. eauto. }
  unfold bind at 1. rewrite Hpw.
  unfold bind at 1. unfold lift at 1.
  unfold bind at 1. unfold lift at 1. rewrite Hcurrent.
  set (toAdd := List.filter _ (selected_names _)).
  set (toRemove := List.filter _ (map VStr C)).
  assert (exists w2,
            (if (0 <? length toAdd)%nat
             then let* rolesToAdd :=
                    lift (filter_result (name_in (map VStr toAdd)) (availableRoles c)) in
                  let* id := lift (get (editingUser c) "id") in
                  let* _ := addRealmRoleMappings env id (VArr rolesToAdd) in
                  ret tt
             else ret tt) w1 = (Ok tt, w2) /\
            no_token (token (keycloak w2)) = false) as (w2 & Hgrant & Htok2).
  { destruct (0 <? length toAdd)%nat; [|eauto].
    destruct (catalog_filter_total (map VStr toAdd)) as [kept Hkept].
    unfold bind, lift. rewrite Hkept, Hid. unfold addRealmRoleMappings.
    match goal with
    | |- context [_request env ?ep ?opts w1] =>
        destruct (Henv ep opts w1 Htok1) as (v & w2 & -> & Htok2)
    end. eauto. }
  unfold bind at 1. rewrite Hgrant.
  assert (exists w3,
            (if (0 <? length toRemove)%nat
             then let* rolesToRemove :=
                    lift (filter_result (name_in toRemove) (availableRoles c)) in
                  if (0 <? length rolesToRemove)%nat
                  then let* id := lift (get (editingUser c) "id") in
                       let* _ := removeRealmRoleMappings env id (VArr rolesToRemove) in
                       ret tt
                  else ret tt
             else ret tt) w2 = (Ok tt, w3)) as (w3 & Hrevoke).
  { destruct (0 <? length toRemove)%nat; [|eauto].
    destruct (catalog_filter_total toRemove) as [kept Hkept].
    unfold bind at 1. unfold lift at 1. rewrite Hkept.
    destruct (0 <? length kept)%nat; [|eauto].
    unfold bind, lift. rewrite Hid. unfold removeRealmRoleMappings.
    match goal with
    | |- context [_request env ?ep ?opts w2] =>
        destruct (Henv ep opts w2 Htok2) as (v & w3 & -> & _)
    end. eauto. }
  unfold bind at 1. rewrite Hrevoke. reflexivity.
Qed.

End Payload.

(** C6. The payload of the grant call of [performUpdate] is made of exactly
    the roles of the catalog whose name is in D−C, and the payload of the
    revoke call of exactly those whose name is in C−D: a name without a role
    in the catalog is in no payload. And such a name is no failure: when
    every request succeeds and the catalog holds no [null], the update
    completes. *)
Theorem unknown_role_names_are_dropped env c w C :
  truthy (editingUser c) = true ->
  current_role_names (editingUser c) = Ok (map VStr C) ->
  let D := selected_names (selectedRoles (formData c)) in
  (forall req lifetime,
     Fetch req lifetime ∈ new_events (performUpdate env c) w ->
     (method req = Some "POST" ->
      exists roles,
        body req = Some (JSON_stringify env (VArr roles)) /\
        forall r, r ∈ roles <->
                  r ∈ availableRoles c /\
                  exists n, get r "name" = Ok (VStr n) /\ n ∈ D /\ n ∉ C) /\
     (method req = Some "DELETE" ->
      exists roles,
        body req = Some (JSON_stringify env (VArr roles)) /\
        forall r, r ∈ roles <->
                  r ∈ availableRoles c /\
                  exists n, get r "name" = Ok (VStr n) /\ n ∈ C /\ n ∉ D)) /\
  (always_succeeds env ->
   Forall (fun r => nullish r = false) (availableRoles c) ->
   no_token (token (keycloak w)) = false ->
   fst (performUpdate env c w) = Ok tt).
Proof.
  intros Hediting Hcurrent D. split.
  - intros req lifetime Hin.
    pose proof (emits_new_events _ _ w
                  (performUpdate_payloads env c C Hediting Hcurrent)) as Hall.
    rewrite Forall_forall in Hall. apply (Hall _ Hin).
  - intros Henv Hcatalog Htok.
    apply (performUpdate_completes env c C Hediting Hcurrent Hcatalog Henv w Htok).
Qed.

Lemma quiet_server_always_succeeds :
  always_succeeds (Demo.env_of (fun _ => inr (Demo.reply 204 None EmptyString None))).
Proof.
  intros endpoint options w Htok.
  unfold _request, bind, get_keycloak, keycloak_updateToken, fetch; simpl.
  rewrite Htok; simpl. unfold Demo.refresh.
  destruct (expires_in (keycloak w) <? 30)%Z; simpl;
    eexists _, _; (split; [reflexivity|]); simpl; [reflexivity|exact Htok].
Qed.

Lemma unknown_role_names_are_dropped_witness :
  let env := Demo.env_of (fun _ => inr (Demo.reply 204 None EmptyString None)) in
  let c := Demo.editing (with_realmRoles Demo.alice [VStr "doctor"; VStr "phantom"])
             (Demo.form_of "alice" EmptyString
                {[ "admin" := true; "ghost" := true ]}) in
  let w := Demo.world_of c in
  truthy (editingUser c) = true /\
  current_role_names (editingUser c) = Ok (map VStr ["doctor"; "phantom"]) /\
  fst (performUpdate env c w) = Ok tt.
Proof.
  intros env c w.
  assert (truthy (editingUser c) = true) as H1 by reflexivity.
  assert (current_role_names (editingUser c) = Ok (map VStr ["doctor"; "phantom"]))
    as H2 by reflexivity.
  split; [exact H1|]. split; [exact H2|].
  apply (proj2 (unknown_role_names_are_dropped env c w ["doctor"; "phantom"] H1 H2)).
  - apply quiet_server_always_succeeds.
  - repeat constructor.
  - reflexivity.
Defined.

(** The payloads of that update: the grant carries the record of [admin]
    alone, the revoke the record of [doctor] alone. *)
Example ghost_and_phantom_are_not_sent :
  let env := Demo.env_of (fun _ => inr (Demo.reply 204 None EmptyString None)) in
  let c := Demo.editing (with_realmRoles Demo.alice [VStr "doctor"; VStr "phantom"])
             (Demo.form_of "alice" EmptyString
                {[ "admin" := true; "ghost" := true ]}) in
  omap (fun e => match e with
                 | Fetch req _ => Some (method req, body req)
                 | _ => None
                 end)
       (new_events (performUpdate env c) (Demo.world_of c))
  = [(Some "POST", Some (Demo.stringify (VArr [Demo.role "r1" "admin"])));
     (Some "DELETE", Some (Demo.stringify (VArr [Demo.role "r2" "doctor"])))].
Proof. vm_compute. reflexivity. Qed.

(** ** [performCreate] *)

Lemma calls_app l1 l2 : calls (l1 ++ l2) = calls l1 ++ calls l2.
Proof. apply omap_app. Qed.

Section Sends.

Context {A B : Type}.

Lemma sends_ret (a : A) : sends (ret a) [].
Proof.
  intros w. exists []. simpl. rewrite app_nil_r.
  split; [reflexivity|]. split; [apply prefix_nil|reflexivity].
Qed.

Lemma sends_throw (e : exn) expected : sends (@throw A e) expected.
Proof.
  intros w. exists []. simpl. rewrite app_nil_r.
  split; [reflexivity|]. split; [apply prefix_nil|discriminate].
Qed.

Lemma sends_bind (m : M A) (k : A -> M B) e1 e2 :
  sends m e1 -> (forall a, sends (k a) e2) -> sends (bind m k) (e1 ++ e2).
Proof.
  intros Hm Hk w. unfold bind.
  destruct (Hm w) as (t1 & Htr1 & Hpre1 & Hall1).
  destruct (m w) as [[a|e] w1]; simpl in *.
  - destruct (Hk a w1) as (t2 & Htr2 & Hpre2 & Hall2).
    exists (t1 ++ t2). rewrite Htr2, Htr1, app_assoc, calls_app.
    rewrite (Hall1 a eq_refl).
    split; [reflexivity|]. split; [apply prefix_app; exact Hpre2|].
    intros b Hb. rewrite (Hall2 b Hb). reflexivity.
  - exists t1. split; [exact Htr1|].
    split; [apply prefix_app_r; exact Hpre1|discriminate].
Qed.

Lemma sends_bind_lift (r : result A) (k : A -> M B) expected :
  (forall a, r = Ok a -> sends (k a) expected) -> sends (bind (lift r) k) expected.
Proof.
  intros Hk w. unfold bind, lift. destruct r as [a|e].
  - apply (Hk a eq_refl).
  - exists []. simpl. rewrite app_nil_r.
    split; [reflexivity|]. split; [apply prefix_nil|discriminate].
Qed.

End Sends.

Lemma sends_alert message : sends (log (Alert message)) [].
Proof.
  intros w. exists [Alert message]. simpl.
  split; [reflexivity|]. split; [apply prefix_nil|reflexivity].
Qed.

Lemma sends_request env endpoint options :
  sends (_request env endpoint options)
        [(opt_method options, baseUrl env +:+ endpoint)].
Proof.
  intros w.
  destruct (request_trace env endpoint options w) as (new & Htr & Hshape).
  exists new. split; [exact Htr|].
  destruct Hshape as [-> | [-> | (k' & tail & _ & -> & Htail)]].
  - split; [apply prefix_nil|]. intros v Hok.
    destruct (_request env endpoint options w) as [r w'] eqn:Hrun.
    simpl in Hok. subst r.
    apply request_ok_fetches in Hrun as (k' & tail & Htr').
    simpl in Htr. rewrite Htr in Htr'. apply app_inv_head in Htr'. discriminate.
  - split; [apply prefix_nil|]. intros v Hok.
    destruct (_request env endpoint options w) as [r w'] eqn:Hrun.
    simpl in Hok. subst r.
    apply request_ok_fetches in Hrun as (k' & tail & Htr').
    simpl in Htr. rewrite Htr in Htr'. apply app_inv_head in Htr'. discriminate.
  - assert (calls (UpdateToken 30
                   :: Fetch (request_config env endpoint options k') (expires_in k')
                   :: tail)
            = [(opt_method options, baseUrl env +:+ endpoint)]) as ->.
    { destruct Htail as [-> | [-> | ->]]; reflexivity. }
    split; [reflexivity|]. reflexivity.
Qed.

Lemma find_result_ok p l x :
  find_result p l = Ok x -> (x ∈ l /\ p x = Ok true) \/ x = VUndefined.
Proof.
  induction l as [|y l IH]; simpl.
  - intros [= <-]. auto.
  - destruct (p y) as [[]|e] eqn:Hy; [| |discriminate].
    + intros [= <-]. left. split; [apply list_elem_of_here|exact Hy].
    + intros Hx. destruct (IH Hx) as [[Hin Hp] | ->]; [|auto].
      left. split; [apply list_elem_of_further; exact Hin|exact Hp].
Qed.

Section Create.

Variable env : Env.
Variable c : Component.

(** What [performCreate] does once it holds the created user. *)
Lemma follow_up_sends createdUser id :
  get createdUser "id" = Ok id ->
  sends
    (let* _ :=
       if truthy (VStr (password (formData c))) then
         let* id := lift (get createdUser "id") in
         let* _ := resetPassword env id (password (formData c)) in
         ret tt
       else ret tt in
     let* _ :=
       if (0 <? length (selected_names (selectedRoles (formData c))))%nat then
         let* roleObjects :=
           lift (filter_result
                   (name_in (map VStr (selected_names (selectedRoles (formData c)))))
                   (availableRoles c)) in
         let* id := lift (get createdUser "id") in
         let* _ := addRealmRoleMappings env id (VArr roleObjects) in
         ret tt
       else ret tt in
     log (Alert ("User " +:+ username (formData c) +:+ " created successfully!")))
    (follow_up_calls env (formData c) id).
Proof.
  intros Hid. unfold follow_up_calls.
  apply sends_bind.
  - destruct (truthy (VStr (password (formData c)))); [|apply sends_ret].
    apply sends_bind_lift. intros id' Hid'.
    assert (id' = id) as -> by congruence.
    rewrite <- (app_nil_r [_]).
    apply sends_bind; [|intros _; apply sends_ret].
    unfold resetPassword. apply sends_request.
  - intros _. rewrite <- (app_nil_r (if (0 <? _)%nat then _ else _)).
    apply sends_bind; [|intros _; apply sends_alert].
    destruct (0 <? length _)%nat; [|apply sends_ret].
    apply sends_bind_lift. intros roles _.
    apply sends_bind_lift. intros id' Hid'.
    assert (id' = id) as -> by congruence.
    rewrite <- (app_nil_r [_]).
    apply sends_bind; [|intros _; apply sends_ret].
    unfold addRealmRoleMappings. apply sends_request.
Qed.

(** [performCreate] from the re-query on. *)
Lemma performCreate_after_requery w x w1 usersList w2 :
  createUser env (newUserData (formData c)) w = (Ok x, w1) ->
  getUsers env 0 10 w1 = (Ok usersList, w2) ->
  performCreate env c w =
    (let* createdUser := lift (find_created usersList (username (formData c))) in
     if negb (truthy createdUser) then throw (Error "User created but not found.")
     else
     let* _ :=
       if truthy (VStr (password (formData c))) then
         let* id := lift (get createdUser "id") in
         let* _ := resetPassword env id (password (formData c)) in
         ret tt
       else ret tt in
     let* _ :=
       if (0 <? length (selected_names (selectedRoles (formData c))))%nat then
         let* roleObjects :=
           lift (filter_result
                   (name_in (map VStr (selected_names (selectedRoles (formData c)))))
                   (availableRoles c)) in
         let* id := lift (get createdUser "id") in
         let* _ := addRealmRoleMappings env id (VArr roleObjects) in
         ret tt
       else ret tt in
     log (Alert ("User " +:+ username (formData c) +:+ " created successfully!")))
    w2.
Proof.
  intros Hcreate Hlist. unfold performCreate. cbv zeta.
  fold (newUserData (formData c)).
  unfold bind at 1. rewrite Hcreate. unfold bind at 1. rewrite Hlist.
  unfold find_created.
  destruct (as_array usersList) as [items|e]; reflexivity.
Qed.

End Create.

Lemma find_created_none items uname :
  Forall (fun u => nullish u = false) items ->
  (forall u, u ∈ items -> get u "username" <> Ok (VStr uname)) ->
  find_created (VArr items) uname = Ok VUndefined.
Proof.
  unfold find_created. cbn [as_array].
  induction 1 as [|u items Hu _ IH]; intros Hno; simpl; [reflexivity|].
  destruct (get_total u "username" Hu) as [n Hn]. rewrite Hn.
  destruct (same_value n (VStr uname)) eqn:Hsame.
  - apply same_value_str in Hsame. subst n.
    exfalso. apply (Hno u); [apply list_elem_of_here|exact Hn].
  - apply IH. intros v Hv. apply Hno. apply list_elem_of_further. exact Hv.
Qed.

Lemma find_created_first before u after uname :
  Forall (fun v => nullish v = false) before ->
  (forall v, v ∈ before -> get v "username" <> Ok (VStr uname)) ->
  get u "username" = Ok (VStr uname) ->
  find_created (VArr (before ++ u :: after)) uname = Ok u.
Proof.
  unfold find_created. cbn [as_array].
  induction 1 as [|v before Hv _ IH]; intros Hno Hu; simpl.
  - rewrite Hu. simpl. rewrite String.eqb_refl. reflexivity.
  - destruct (get_total v "username" Hv) as [n Hn]. rewrite Hn.
    destruct (same_value n (VStr uname)) eqn:Hsame.
    + apply same_value_str in Hsame. subst n.
      exfalso. apply (Hno v); [apply list_elem_of_here|exact Hn].
    + apply IH; [|exact Hu]. intros v' Hv'. apply Hno.
      apply list_elem_of_further. exact Hv'.
Qed.

(** With a server that answers every request, the follow-up of
    [performCreate] runs to its alert. *)
Lemma follow_up_completes env c createdUser id w :
  get createdUser "id" = Ok id ->
  always_succeeds env ->
  Forall (fun r => nullish r = false) (availableRoles c) ->
  no_token (token (keycloak w)) = false ->
  exists w' mid,
    (let* _ :=
       if truthy (VStr (password (formData c))) then
         let* id := lift (get createdUser "id") in
         let* _ := resetPassword env id (password (formData c)) in
         ret tt
       else ret tt in
     let* _ :=
       if (0 <? length (selected_names (selectedRoles (formData c))))%nat then
         let* roleObjects :=
           lift (filter_result
                   (name_in (map VStr (selected_names (selectedRoles (formData c)))))
                   (availableRoles c)) in
         let* id := lift (get createdUser "id") in
         let* _ := addRealmRoleMappings env id (VArr roleObjects) in
         ret tt
       else ret tt in
     log (Alert ("User " +:+ username (formData c) +:+ " created successfully!")))
      w
    = (Ok tt, w') /\
    trace w'
    = trace w ++ mid
      ++ [Alert ("User " +:+ username (formData c) +:+ " created successfully!")].
Proof.
  intros Hid Henv Hcatalog Htok.
  assert (exists w1 n1,
            (if truthy (VStr (password (formData c)))
             then let* id := lift (get createdUser "id") in
                  let* _ := resetPassword env id (password (formData c)) in
                  ret tt
             else ret tt) w = (Ok tt, w1) /\
            no_token (token (keycloak w1)) = false /\
            trace w1 = trace w ++ n1) as (w1 & n1 & Hpw & Htok1 & Htr1).
  { destruct (truthy (VStr (password (formData c)))).
    - unfold bind, lift. rewrite Hid. unfold resetPassword.
      match goal with
      | |- context [_request env ?ep ?opts w] =>
          destruct (Henv ep opts w Htok) as (v & w1 & Hrun & Htok1);
          destruct (request_trace env ep opts w) as (n1 & Htr1 & _);
          rewrite Hrun in Htr1 |- *
      end. eauto.
    - exists w, []. rewrite app_nil_r. auto. }
  unfold bind at 1. rewrite Hpw.
  assert (exists w2 n2,
            (if (0 <? length (selected_names (selectedRoles (formData c))))%nat
             then let* roleObjects :=
                    lift (filter_result
                            (name_in (map VStr (selected_names
                                                  (selectedRoles (formData c)))))
                            (availableRoles c)) in
                  let* id := lift (get createdUser "id") in
                  let* _ := addRealmRoleMappings env id (VArr roleObjects) in
                  ret tt
             else ret tt) w1 = (Ok tt, w2) /\
            trace w2 = trace w1 ++ n2) as (w2 & n2 & Hgrant & Htr2).
  { destruct (0 <? length _)%nat.
    - destruct (filter_result_total
                  (name_in (map VStr (selected_names (selectedRoles (formData c)))))
                  (availableRoles c)) as [kept Hkept].
      { eapply Forall_impl; [exact Hcatalog|]. intros r Hr.
        apply name_in_total. exact Hr. }
      unfold bind, lift. rewrite Hkept, Hid. unfold addRealmRoleMappings.
      match goal with
      | |- context [_request env ?ep ?opts w1] =>
          destruct (Henv ep opts w1 Htok1) as (v & w2 & Hrun & _);
          destruct (request_trace env ep opts w1) as (n2 & Htr2 & _);
          rewrite Hrun in Htr2 |- *
      end. eauto.
    - exists w1, []. rewrite app_nil_r. auto. }
  unfold bind at 1. rewrite Hgrant.
  eexists _, (n1 ++ n2). split; [reflexivity|]. simpl.
  rewrite Htr2, Htr1, <- !app_assoc. reflexivity.
Qed.

(** C5. After a successful create call, [performCreate] re-queries the user
    list. When the re-query fails, or does not answer with an array, the
    flow fails with that error and sends nothing more. When the list holds
    no user with the username of the form, the flow fails with "User created
    but not found." and sends nothing more. When it holds one, the first such
    user is the created user: the flow goes on after the re-query, every
    later call is addressed to the [id] of that record, the password reset
    first and the role assignment second, and the flow runs to its alert
    when the server answers these calls. *)
Theorem performCreate_uses_the_discovered_identifier env c w x w1 :
  createUser env (newUserData (formData c)) w = (Ok x, w1) ->
  (forall e w2,
     getUsers env 0 10 w1 = (Throw e, w2) ->
     performCreate env c w = (Throw e, w2)) /\
  (forall usersList w2,
     getUsers env 0 10 w1 = (Ok usersList, w2) ->
     calls (drop (length (trace w)) (trace w2))
     = [(Some "POST", baseUrl env +:+ "/users");
        (None, baseUrl env +:+ "/users?first=0&max=10")] /\
     (forall e, as_array usersList = Throw e ->
                performCreate env c w = (Throw e, w2)) /\
     (forall items,
        usersList = VArr items ->
        Forall (fun u => nullish u = false) items ->
        ((forall u, u ∈ items ->
                    get u "username" <> Ok (VStr (username (formData c)))) ->
         performCreate env c w
         = (Throw (Error "User created but not found."), w2)) /\
        (forall before u after id,
           items = before ++ u :: after ->
           (forall v, v ∈ before ->
                      get v "username" <> Ok (VStr (username (formData c)))) ->
           get u "username" = Ok (VStr (username (formData c))) ->
           get u "id" = Ok id ->
           exists tail,
             trace (snd (performCreate env c w)) = trace w2 ++ tail /\
             calls tail `prefix_of` follow_up_calls env (formData c) id /\
             (fst (performCreate env c w) = Ok tt ->
              calls tail = follow_up_calls env (formData c) id) /\
             (always_succeeds env ->
              Forall (fun r => nullish r = false) (availableRoles c) ->
              no_token (token (keycloak w2)) = false ->
              fst (performCreate env c w) = Ok tt /\
              last tail
              = Some (Alert ("User " +:+ username (formData c)
                             +:+ " created successfully!")))))).
Proof.
  intros Hcreate. split.
  { intros e w2 Hlist. unfold performCreate. cbv zeta.
    fold (newUserData (formData c)).
    unfold bind at 1. rewrite Hcreate. unfold bind at 1. rewrite Hlist.
    reflexivity. }
  intros usersList w2 Hlist.
  pose proof (performCreate_after_requery env c w x w1 usersList w2 Hcreate Hlist)
    as Hrun.
  split; [|split].
  - destruct (sends_request env "/users"
                {| opt_method := Some "POST"; opt_headers := [];
                   opt_body := Some (JSON_stringify env (newUserData (formData c))) |}
                w) as (t1 & Htr1 & _ & Hall1).
    destruct (sends_request env "/users?first=0&max=10" no_options w1)
      as (t2 & Htr2 & _ & Hall2).
    unfold createUser in Hcreate.
    change (getUsers env 0 10)
      with (_request env "/users?first=0&max=10" no_options) in Hlist.
    rewrite Hcreate in Htr1, Hall1. rewrite Hlist in Htr2, Hall2. simpl in *.
    rewrite Htr2, Htr1, <- app_assoc, drop_app_length, calls_app.
    rewrite (Hall1 x eq_refl), (Hall2 usersList eq_refl). reflexivity.
  - intros e Harr. rewrite Hrun. unfold find_created. rewrite Harr. reflexivity.
  - intros items -> Hitems. split.
    + intros Hnone. rewrite Hrun.
      rewrite (find_created_none items _ Hitems Hnone). reflexivity.
    + intros before u after id -> Hbefore Hname Hid.
      apply Forall_app in Hitems as [Hnn _].
      rewrite (find_created_first before u after _ Hnn Hbefore Hname) in Hrun.
      assert (truthy u = true) as Htruthy
        by (destruct u; simpl in Hname; try discriminate; reflexivity).
      unfold bind at 1 in Hrun. unfold lift at 1 in Hrun.
      rewrite Htruthy in Hrun. cbn [negb] in Hrun. cbv iota in Hrun.
      destruct (follow_up_sends env c u id Hid w2) as (tail & Htr & Hpre & Hall).
      rewrite <- Hrun in Htr, Hall.
      exists tail. split; [exact Htr|]. split; [exact Hpre|].
      split; [intros Hok; apply (Hall tt Hok)|].
      intros Henv Hcatalog Htok.
      destruct (follow_up_completes env c u id w2 Hid Henv Hcatalog Htok)
        as (w' & mid & Hdone & Hlast).
      rewrite <- Hrun in Hdone. rewrite Hdone in Htr |- *. simpl in Htr.
      split; [reflexivity|].
      rewrite Hlast in Htr. apply app_inv_head in Htr. subst tail.
      apply last_snoc.
Qed.

Lemma registry_always_succeeds : always_succeeds (Demo.env_of More.registry).
Proof.
  intros endpoint options w Htok.
  unfold _request, bind, get_keycloak, keycloak_updateToken, fetch; simpl.
  rewrite Htok; simpl. unfold Demo.refresh, More.registry.
  destruct (expires_in (keycloak w) <? 30)%Z; simpl;
    destruct (opt_method options); simpl;
    eexists _, _; (split; [reflexivity|]); simpl; first [reflexivity|exact Htok].
Qed.

Lemma performCreate_uses_the_discovered_identifier_witness :
  let env := Demo.env_of More.registry in
  let c := Demo.editing VNull
             (Demo.form_of "bob" "s3cret" {[ "doctor" := true ]}) in
  let w := Demo.world_of c in
  let w1 := snd (createUser env (newUserData (formData c)) w) in
  let w2 := snd (getUsers env 0 10 w1) in
  createUser env (newUserData (formData c)) w = (Ok VNull, w1) /\
  getUsers env 0 10 w1 = (Ok (VArr [Demo.alice; Demo.bob]), w2) /\
  fst (performCreate env c w) = Ok tt /\
  exists tail,
    trace (snd (performCreate env c w)) = trace w2 ++ tail /\
    calls tail
    = [(Some "PUT", baseUrl env +:+ "/users/u2/reset-password");
       (Some "POST", baseUrl env +:+ "/users/u2/role-mappings/realm")] /\
    last tail = Some (Alert "User bob created successfully!").
Proof.
  intros env c w w1 w2.
  assert (createUser env (newUserData (formData c)) w = (Ok VNull, w1)) as H1
    by (vm_compute; reflexivity).
  assert (getUsers env 0 10 w1 = (Ok (VArr [Demo.alice; Demo.bob]), w2)) as H2
    by (vm_compute; reflexivity).
  split; [exact H1|]. split; [exact H2|].
  destruct (proj2 (performCreate_uses_the_discovered_identifier env c w VNull w1 H1)
              (VArr [Demo.alice; Demo.bob]) w2 H2) as (_ & _ & Hitems).
  destruct (Hitems [Demo.alice; Demo.bob] eq_refl) as [_ Hfound].
  { repeat constructor. }
  destruct (Hfound [Demo.alice] Demo.bob [] (VStr "u2") eq_refl)
    as (tail & Htr & _ & Hall & Hdone).
  - intros v Hv. apply list_elem_of_singleton in Hv. subst v. discriminate.
  - reflexivity.
  - reflexivity.
  - destruct (Hdone registry_always_succeeds) as [Hok Hlast].
    + repeat constructor.
    + reflexivity.
    + split; [exact Hok|]. exists tail. split; [exact Htr|].
      split; [exact (Hall Hok)|exact Hlast].
Defined.

(** The whole create flow against the demo realm: the two follow-up calls go
    to the identifier [u2] that the re-query returned for [bob]. *)
Example create_bob_calls :
  let env := Demo.env_of Demo.directory in
  let c := Demo.editing VNull
             (Demo.form_of "bob" "s3cret" {[ "doctor" := true ]}) in
  fst (performCreate env c (Demo.world_of c)) = Ok tt /\
  calls (new_events (performCreate env c) (Demo.world_of c))
  = [(Some "POST", Demo.base +:+ "/users");
     (None, Demo.base +:+ "/users?first=0&max=10");
     (Some "PUT", Demo.base +:+ "/users/u2/reset-password");
     (Some "POST", Demo.base +:+ "/users/u2/role-mappings/realm")].
Proof. split; vm_compute; reflexivity. Qed.

(** A username that the re-query does not return. *)
Example create_carol_not_found :
  let env := Demo.env_of Demo.directory in
  let c := Demo.editing VNull
             (Demo.form_of "carol" "s3cret" {[ "doctor" := true ]}) in
  fst (performCreate env c (Demo.world_of c))
  = Throw (Error "User created but not found.") /\
  calls (new_events (performCreate env c) (Demo.world_of c))
  = [(Some "POST", Demo.base +:+ "/users");
     (None, Demo.base +:+ "/users?first=0&max=10")].
Proof. split; vm_compute; reflexivity. Qed.

(** ** Small checks of the helpers *)

Example to_string_array :
  to_string (VArr [VNum 12; VNull; VStr "a"; VArr [VBool true; VNum (-3)]])
  = "12,,a,true,-3".
Proof. reflexivity. Qed.

Example parseInt_examples :
  parseInt (VNum 42) = Some 42%Z /\ parseInt (VStr " -17px") = Some (-17)%Z /\
  parseInt (VStr "0x1f") = Some 31%Z /\ parseInt (VStr "none") = None.
Proof. repeat split. Qed.

Example baseUrl_demo : baseUrl (Demo.env_of Demo.directory) = Demo.base.
Proof. reflexivity. Qed.

Example getEvents_url :
  let env := Demo.env_of (fun _ => inr (Demo.json_reply (VArr []))) in
  calls (new_events (getEvents env 20 10 default_event_types) (Demo.world_of Demo.blank))
  = [(None, Demo.base +:+ "/events?first=20&max=10&type=LOGIN&type=LOGOUT&type=LOGIN_ERROR")].
Proof. vm_compute. reflexivity. Qed.

Example form_encode_example : form_encode "a b&c=d/~" = "a+b%26c%3Dd%2F%7E".
Proof. reflexivity. Qed.


(** * Further properties *)

(** ** The service *)

Lemma strip_trailing_slash_app s :
  strip_trailing_slash (s +:+ "/") = s.
Proof.
  induction s as [|c s IH]; [reflexivity|].
  simpl. rewrite IH. destruct s; reflexivity.
Qed.

Lemma strip_trailing_slash_other s :
  (forall root, s <> root +:+ "/") -> strip_trailing_slash s = s.
Proof.
  induction s as [|c s IH]; [reflexivity|]. intros Hno.
  destruct s as [|c' s'].
  - simpl. destruct (Ascii.eqb_spec c "/") as [->|Hc]; [|reflexivity].
    exfalso. apply (Hno EmptyString). reflexivity.
  - change (String c (strip_trailing_slash (String c' s')) = String c (String c' s')).
    rewrite IH; [reflexivity|].
    intros root Hroot. apply (Hno (String c root)). simpl. rewrite Hroot.
    reflexivity.
Qed.

Lemma ends_with_slash_or_not s :
  (exists root, s = root +:+ "/") \/ (forall root, s <> root +:+ "/").
Proof.
  induction s as [|c s IH].
  - right. intros [|? ?]; discriminate.
  - destruct s as [|c' s'].
    + destruct (Ascii.eqb_spec c "/") as [->|Hc].
      * left. exists EmptyString. reflexivity.
      * right. intros [|a [|b root]]; simpl; intros [= H]; congruence.
    + destruct IH as [(root & Hs)|Hno].
      * left. exists (String c root). simpl. rewrite Hs. reflexivity.
      * right. intros [|a root]; simpl; [discriminate|]. intros [= -> H].
        apply (Hno root). exact H.
Qed.

Lemma strip_trailing_slash_cases s :
  (exists root, s = root +:+ "/" /\ strip_trailing_slash s = root)
  \/ ((forall root, s <> root +:+ "/") /\ strip_trailing_slash s = s).
Proof.
  destruct (ends_with_slash_or_not s) as [(root & ->)|Hno].
  - left. exists root. split; [reflexivity|apply strip_trailing_slash_app].
  - right. split; [exact Hno|apply strip_trailing_slash_other; exact Hno].
Qed.

(** X1. The base URL of the service is the server URL without its trailing
    slash, if it has one, followed by [/admin/realms/<realm>]; exactly one
    slash is removed. *)
Theorem baseUrl_drops_one_trailing_slash env :
  (exists root,
     authServerUrl env = root +:+ "/" /\
     baseUrl env = root +:+ "/admin/realms/" +:+ realm env)
  \/ ((forall root, authServerUrl env <> root +:+ "/") /\
      baseUrl env = authServerUrl env +:+ "/admin/realms/" +:+ realm env).
Proof.
  unfold baseUrl.
  destruct (strip_trailing_slash_cases (authServerUrl env))
    as [(root & Hs & ->)|[Hno ->]]; [left; eauto|right; auto].
Qed.

Lemma request_no_token env endpoint options w :
  no_token (token (keycloak w)) = true ->
  _request env endpoint options w = (Throw (Error "No active token"), w).
Proof.
  intros Htok. unfold _request, bind, get_keycloak. simpl. rewrite Htok.
  reflexivity.
Qed.

(** X2. Without a token, [_request] throws "No active token" and does nothing
    else: no refresh, no HTTP call, the world is as it was. *)
Theorem request_without_token_does_nothing env endpoint options w :
  no_token (token (keycloak w)) = true ->
  _request env endpoint options w = (Throw (Error "No active token"), w).
Proof. apply request_no_token. Qed.

Lemma request_without_token_does_nothing_witness :
  let env := Demo.env_of Demo.directory in
  let w := {| keycloak := {| token := None; expires_in := 0 |};
              trace := []; ui := Demo.blank |} in
  no_token (token (keycloak w)) = true /\
  _request env "/users/count" no_options w = (Throw (Error "No active token"), w).
Proof.
  intros env w. split; [reflexivity|].
  apply (request_without_token_does_nothing env "/users/count" no_options w).
  reflexivity.
Defined.

(** X3. A rejection of the token refresh, and a rejection of [fetch], reach
    the caller of [_request] as they are; when the refresh is rejected no
    HTTP call is made. *)
Theorem request_propagates_rejections env endpoint options w :
  no_token (token (keycloak w)) = false ->
  (forall e,
     updateToken env (trace w) 30 (keycloak w) = inl e ->
     fst (_request env endpoint options w) = Throw e /\
     new_events (_request env endpoint options) w = [UpdateToken 30]) /\
  (forall k' dt e,
     updateToken env (trace w) 30 (keycloak w) = inr k' ->
     serve env (trace w ++ [UpdateToken 30])
           (request_config env endpoint options k') = (dt, inl e) ->
     fst (_request env endpoint options w) = Throw e /\
     new_events (_request env endpoint options) w
     = [UpdateToken 30;
        Fetch (request_config env endpoint options k') (expires_in k')]).
Proof.
  intros Htok. split.
  - intros e Hupd. unfold new_events.
    unfold _request, bind, get_keycloak, keycloak_updateToken; simpl.
    rewrite Htok; simpl. rewrite Hupd; simpl.
    split; [reflexivity|]. apply drop_app_length.
  - intros k' dt e Hupd Hsrv. unfold new_events.
    unfold _request, bind, get_keycloak, keycloak_updateToken, fetch; simpl.
    rewrite Htok; simpl. rewrite Hupd; simpl. rewrite Hsrv; simpl.
    split; [reflexivity|]. rewrite <- app_assoc. apply drop_app_length.
Qed.

Lemma request_propagates_rejections_witness :
  let env := Demo.env_of (fun _ => inl TypeError) in
  let w := Demo.world_of Demo.blank in
  no_token (token (keycloak w)) = false /\
  fst (_request env "/roles" no_options w) = Throw TypeError.
Proof.
  intros env w. split; [reflexivity|].
  refine (proj1 (proj2 (request_propagates_rejections env "/roles" no_options w
                          eq_refl) _ 1%Z TypeError eq_refl eq_refl)).
Defined.

(** X4. No operation of the service retries: whatever happens, a call of an
    operation refreshes the token at most once and sends at most one HTTP
    request. *)
Theorem operations_never_retry env op w :
  (length (More.refreshes (new_events (call env op) w)) <= 1)%nat /\
  (length (calls (new_events (call env op) w)) <= 1)%nat.
Proof.
  destruct (call_is_request env op) as (endpoint & options & _ & Hcall).
  unfold new_events. rewrite Hcall.
  destruct (request_trace env endpoint options w) as (new & -> & Hshape).
  rewrite drop_app_length.
  destruct Hshape as [-> | [-> | (k' & tail & _ & -> & Htail)]];
    [simpl; lia|simpl; lia|].
  destruct Htail as [-> | [-> | ->]]; simpl; lia.
Qed.

(** ** [parseInt] and the user count *)

Lemma digits_acc d a :
  digits 10 (NilEmpty.string_of_uint d) (Some (Zpos a))
  = Some (Zpos (Pos.of_uint_acc d a)).
Proof.
  revert a. induction d; intros a; [reflexivity|..].
  all: cbn [NilEmpty.string_of_uint digits Pos.of_uint_acc].
  all: match goal with
       | |- context [digit_value 10 ?c] =>
           let v := eval vm_compute in (digit_value 10 c) in
           change (digit_value 10 c) with v
       end.
  all: cbv iota beta; cbn [default].
  all: rewrite <- IHd; do 2 f_equal; unfold id; lia.
Qed.

Lemma digits_zero d :
  digits 10 (NilEmpty.string_of_uint d) (Some 0%Z)
  = Some (Z.of_N (Pos.of_uint d)).
Proof.
  induction d; [reflexivity|..].
  all: cbn [NilEmpty.string_of_uint digits Pos.of_uint].
  all: match goal with
       | |- context [digit_value 10 ?c] =>
           let v := eval vm_compute in (digit_value 10 c) in
           change (digit_value 10 c) with v
       end.
  all: cbv iota beta; cbn [default]; unfold id; simpl Z.add.
  all: try exact IHd.
  all: apply digits_acc.
Qed.

Lemma digits_start d :
  d <> Decimal.Nil ->
  digits 10 (NilEmpty.string_of_uint d) None
  = digits 10 (NilEmpty.string_of_uint d) (Some 0%Z).
Proof. destruct d; [congruence|..]; reflexivity. Qed.

Lemma parseInt_decimal d :
  d <> Decimal.Nil ->
  parseInt (VStr (NilEmpty.string_of_uint d))
  = (fun n => 1 * n)%Z <$> digits 10 (NilEmpty.string_of_uint d) None /\
  parseInt (VStr (String "-" (NilEmpty.string_of_uint d)))
  = (fun n => -1 * n)%Z <$> digits 10 (NilEmpty.string_of_uint d) None.
Proof.
  intros Hd. destruct d as [|d|d|d|d|d|d|d|d|d|d]; [congruence|..];
    try (split; reflexivity).
  destruct d; split; reflexivity.
Qed.

Lemma parseInt_uint d :
  d <> Decimal.Nil ->
  parseInt (VStr (NilEmpty.string_of_uint d)) = Some (Z.of_N (Pos.of_uint d)) /\
  parseInt (VStr (String "-" (NilEmpty.string_of_uint d)))
  = Some (- Z.of_N (Pos.of_uint d))%Z.
Proof.
  intros Hd. destruct (parseInt_decimal d Hd) as [-> ->].
  rewrite (digits_start d Hd), digits_zero. simpl.
  destruct (Z.of_N (Pos.of_uint d)); split; reflexivity.
Qed.

Lemma parseInt_string_of_Z (n : Z) : parseInt (VStr (string_of_Z n)) = Some n.
Proof.
  unfold string_of_Z. destruct n as [|p|p]; [reflexivity|..];
    unfold Z.to_int, NilZero.string_of_int, NilZero.string_of_uint.
  - pose proof (DecimalPos.Unsigned.to_uint_nonnil p) as Hnil.
    destruct (Pos.to_uint p) eqn:Hp; [congruence|..];
      rewrite <- Hp in *;
      rewrite (proj1 (parseInt_uint _ Hnil)), DecimalPos.Unsigned.of_to;
      reflexivity.
  - pose proof (DecimalPos.Unsigned.to_uint_nonnil p) as Hnil.
    destruct (Pos.to_uint p) eqn:Hp; [congruence|..];
      rewrite <- Hp in *;
      rewrite (proj2 (parseInt_uint _ Hnil)), DecimalPos.Unsigned.of_to;
      reflexivity.
Qed.

(** X5. [parseInt] reads back the decimal text of every safe integer: of
    the number itself and of the string that spells it. *)
Theorem parseInt_reads_back_an_integer (n : Z) :
  More.safe_integer n ->
  parseInt (VNum n) = Some n /\ parseInt (VStr (string_of_Z n)) = Some n.
Proof. intros _. split; apply parseInt_string_of_Z. Qed.

Lemma parseInt_reads_back_an_integer_witness :
  parseInt (VNum (-2026)) = Some (-2026)%Z /\
  parseInt (VStr (string_of_Z (-2026))) = Some (-2026)%Z.
Proof.
  apply (parseInt_reads_back_an_integer (-2026)). unfold More.safe_integer. lia.
Defined.

Lemma string_of_Z_truthy n : truthy (VStr (string_of_Z n)) = true.
Proof.
  unfold string_of_Z. destruct n as [|p|p]; [reflexivity| |reflexivity].
  unfold Z.to_int, NilZero.string_of_int, NilZero.string_of_uint.
  pose proof (DecimalPos.Unsigned.to_uint_nonnil p) as Hnil.
  destruct (Pos.to_uint p); [congruence|..]; reflexivity.
Qed.

(** X6. [getUsersCount] reads the count, a safe integer, whether the server
    sends it as a number or as the string that spells it, and counts zero
    when the response has no content ([null], or anything falsy). *)
Theorem getUsersCount_reads_number_or_text env w v w' :
  _request env "/users/count" no_options w = (Ok v, w') ->
  (forall n, More.safe_integer n ->
             v = VNum n \/ v = VStr (string_of_Z n) ->
             getUsersCount env w = (Ok (Some n), w')) /\
  (truthy v = false -> getUsersCount env w = (Ok (Some 0%Z), w')).
Proof.
  intros Hrun. unfold getUsersCount, bind, ret. rewrite Hrun. split.
  - intros n _ [-> | ->].
    + destruct (truthy (VNum n)) eqn:Hn.
      * change (parseInt (VNum n)) with (parseInt (VStr (string_of_Z n))).
        rewrite parseInt_string_of_Z. reflexivity.
      * simpl in Hn. apply negb_false_iff, Z.eqb_eq in Hn. subst n. reflexivity.
    + rewrite string_of_Z_truthy, parseInt_string_of_Z. reflexivity.
  - intros ->. reflexivity.
Qed.

Lemma getUsersCount_reads_number_or_text_witness :
  let env := Demo.env_of (fun _ => inr (Demo.json_reply (VStr "42"))) in
  let w := Demo.world_of Demo.blank in
  let w' := snd (_request env "/users/count" no_options w) in
  _request env "/users/count" no_options w = (Ok (VStr "42"), w') /\
  getUsersCount env w = (Ok (Some 42%Z), w').
Proof.
  intros env w w'.
  assert (_request env "/users/count" no_options w = (Ok (VStr "42"), w')) as H
    by (vm_compute; reflexivity).
  split; [exact H|].
  apply (proj1 (getUsersCount_reads_number_or_text env w (VStr "42") w' H) 42%Z).
  - unfold More.safe_integer. lia.
  - right. reflexivity.
Defined.

(** ** The query of [getEvents] *)

Lemma occurrences_app c s1 s2 :
  More.occurrences c (s1 +:+ s2) = (More.occurrences c s1 + More.occurrences c s2)%nat.
Proof.
  unfold More.occurrences. induction s1 as [|a s1 IH]; [reflexivity|].
  simpl. rewrite IH. destruct (Ascii.ascii_dec a c); reflexivity.
Qed.

Lemma form_encode_byte_plain a :
  More.occurrences "&" (form_encode_byte a) = 0%nat /\
  More.occurrences "=" (form_encode_byte a) = 0%nat.
Proof.
  destruct a as [[] [] [] [] [] [] [] []]; split; vm_compute; reflexivity.
Qed.

Lemma form_encode_plain s :
  More.occurrences "&" (form_encode s) = 0%nat /\
  More.occurrences "=" (form_encode s) = 0%nat.
Proof.
  induction s as [|a s [IH1 IH2]]; [split; reflexivity|].
  simpl. rewrite !occurrences_app, IH1, IH2.
  destruct (form_encode_byte_plain a) as [-> ->]. split; reflexivity.
Qed.

Lemma query_fields (params : list (string * string)) :
  More.occurrences "=" (URLSearchParams_toString params) = length params /\
  More.occurrences "&" (URLSearchParams_toString params) = (length params - 1)%nat.
Proof.
  induction params as [|[k v] rest [IHeq IHamp]]; [split; reflexivity|].
  assert (More.occurrences "=" (form_encode k +:+ "=" +:+ form_encode v) = 1%nat
          /\ More.occurrences "&" (form_encode k +:+ "=" +:+ form_encode v) = 0%nat)
    as [Heq Hamp].
  { rewrite !occurrences_app.
    destruct (form_encode_plain k) as [-> ->].
    destruct (form_encode_plain v) as [-> ->]. split; reflexivity. }
  destruct rest as [|p rest].
  - change (URLSearchParams_toString [(k, v)])
      with (form_encode k +:+ "=" +:+ form_encode v).
    rewrite Heq, Hamp. split; reflexivity.
  - change (URLSearchParams_toString ((k, v) :: p :: rest))
      with ((form_encode k +:+ "=" +:+ form_encode v) +:+ "&"
            +:+ URLSearchParams_toString (p :: rest)).
    rewrite 2!(occurrences_app _ (form_encode k +:+ "=" +:+ form_encode v)),
      Heq, Hamp, !occurrences_app, IHeq, IHamp.
    simpl length. split; [reflexivity|].
    change (More.occurrences "&" "&") with 1%nat. lia.
Qed.

(** X7. In the query string of [getEvents], and of any list of parameters, no
    name and no value can add a parameter: whatever they contain, the query
    has one [=] per parameter and one [&] between two parameters. *)
Theorem query_has_one_field_per_parameter (params : list (string * string)) :
  More.occurrences "=" (URLSearchParams_toString params) = length params /\
  More.occurrences "&" (URLSearchParams_toString params) = (length params - 1)%nat.
Proof. apply query_fields. Qed.

(** The query that [getEvents] sends has [2 + length types] fields. *)
Example getEvents_query_fields env first max types w :
  forall req lifetime,
    Fetch req lifetime ∈ new_events (getEvents env first max types) w ->
    exists query,
      url req = baseUrl env +:+ "/events?" +:+ query /\
      More.occurrences "=" query = (2 + length types)%nat /\
      More.occurrences "&" query = (1 + length types)%nat.
Proof.
  intros req lifetime Hin. unfold getEvents in Hin.
  set (params := [("first", string_of_Z first); ("max", string_of_Z max)]
                 ++ map (fun t => ("type", t)) types) in *.
  pose proof (emits_new_events
                (fun e => match e with
                          | Fetch r _ =>
                              url r = baseUrl env +:+ "/events?"
                                      +:+ URLSearchParams_toString params
                          | _ => True
                          end) _ w
                (emits_request env _ _ no_options I I I (fun k => eq_refl))) as Hall.
  rewrite Forall_forall in Hall. specialize (Hall _ Hin). simpl in Hall.
  exists (URLSearchParams_toString params). split; [exact Hall|].
  destruct (query_fields params) as [-> ->].
  unfold params. rewrite length_app, length_map. simpl. split; lia.
Qed.

(** ** The shape of the requests *)

Lemma spread_headers_none base : spread_headers base [] = base.
Proof. reflexivity. Qed.

(** X8. Every request of the service goes to a URL under the base URL, with
    the JSON content type and, as bearer, the token that the adapter holds
    after the refresh that precedes the request; the operations that read
    send neither a method nor a body, the others a method and a body made by
    [JSON.stringify]. *)
Theorem requests_are_well_formed env op w req lifetime :
  Fetch req lifetime ∈ new_events (call env op) w ->
  (exists path, url req = baseUrl env +:+ path) /\
  (exists k',
     updateToken env (trace w) 30 (keycloak w) = inr k' /\
     header "Authorization" (headers req)
     = Some ("Bearer " +:+ token_string (token k'))) /\
  header "Content-Type" (headers req) = Some "application/json" /\
  (if More.is_read op then method req = None /\ body req = None
   else exists m v, method req = Some m /\ body req = Some (JSON_stringify env v)).
Proof.
  intros Hin.
  set (P := fun e =>
              match e with
              | Fetch req _ =>
                  (exists path, url req = baseUrl env +:+ path) /\
                  header "Content-Type" (headers req) = Some "application/json" /\
                  (if More.is_read op then method req = None /\ body req = None
                   else exists m v, method req = Some m /\
                                    body req = Some (JSON_stringify env v))
              | _ => True
              end).
  assert (emits P (call env op)) as Hemits.
  { destruct op; unfold call;
      (apply emits_bind; [|intros ?; apply emits_ret]);
      unfold getUsers, getUsersCount, getEvents, createUser, resetPassword,
        getRealmRoles, getUserRealmRoles, addRealmRoleMappings,
        removeRealmRoleMappings, getRoleByName;
      try (apply emits_bind; [|intros ?; apply emits_ret]);
      (apply emits_request; [exact I|exact I|exact I|]);
      intros k; unfold P; simpl;
      (split; [eexists; reflexivity|]);
      (split; [reflexivity|]);
      first [split; reflexivity | eexists _, _; split; reflexivity]. }
  pose proof (emits_new_events P _ w Hemits) as Hall.
  rewrite Forall_forall in Hall.
  destruct (Hall _ Hin) as (Hurl & Htype & Hshape).
  split; [exact Hurl|]. split; [|split; [exact Htype|exact Hshape]].
  clear Hall Hemits Hurl Htype Hshape. unfold new_events in Hin.
  destruct (call_is_request env op) as (endpoint & options & Hhdr & Hcall).
  rewrite Hcall in Hin.
  destruct (request_trace env endpoint options w) as (new & Htr & Hnew).
  rewrite Htr, drop_app_length in Hin.
  destruct Hnew as [-> | [-> | (k' & tail & Hupd & -> & Htail)]].
  - inversion Hin.
  - apply list_elem_of_singleton in Hin. discriminate.
  - exists k'. split; [exact Hupd|].
    apply elem_of_cons in Hin as [Hin | Hin]; [discriminate|].
    apply elem_of_cons in Hin as [Hin | Hin].
    + inversion Hin; subst. unfold request_config. simpl.
      rewrite Hhdr. reflexivity.
    + exfalso. destruct Htail as [-> | [-> | ->]];
        [inversion Hin| |];
        apply list_elem_of_singleton in Hin; discriminate.
Qed.

Lemma requests_are_well_formed_witness :
  let env := Demo.env_of Demo.directory in
  let w := Demo.world_of Demo.blank in
  let op := ResetPassword (VStr "u1") "s3cret" in
  exists req lifetime,
    Fetch req lifetime ∈ new_events (call env op) w /\
    header "Content-Type" (headers req) = Some "application/json".
Proof.
  intros env w op.
  assert (exists req lifetime, Fetch req lifetime ∈ new_events (call env op) w)
    as (req & lifetime & Hin).
  { eexists _, _. vm_compute. apply list_elem_of_further, list_elem_of_here. }
  exists req, lifetime. split; [exact Hin|].
  exact (proj1 (proj2 (proj2 (requests_are_well_formed env op w req lifetime Hin)))).
Defined.

(** ** More on [loadUsers] *)



Lemma request_keeps_ui env endpoint options w :
  ui (snd (_request env endpoint options w)) = ui w.
Proof.
  unfold _request, bind, get_keycloak, keycloak_updateToken, fetch; simpl.
  destruct (no_token (token (keycloak w))); [reflexivity|]. simpl.
  destruct (updateToken env (trace w) 30 (keycloak w)) as [e|k']; [reflexivity|].
  simpl. destruct (serve env _ _) as [dt [e|resp]]; [reflexivity|]. simpl.
  destruct (ok resp); simpl.
  - destruct (bool_decide _ || _); [reflexivity|].
    unfold try_catch, response_json, bind, log, ret, throw. simpl.
    destruct (json resp); reflexivity.
  - destruct (status resp =? 403)%Z; [reflexivity|].
    destruct (status resp =? 409)%Z; reflexivity.
Qed.

Lemma bind_ret_keeps_ui {A B} (m : M A) (f : A -> B) w :
  ui (snd ((let* x := m in ret (f x)) w)) = ui (snd (m w)).
Proof. rewrite snd_bind_ret. reflexivity. Qed.

Lemma page_and_count_keep_ui env first max w :
  ui (snd (Promise_all2 (getUsers env first max) (getUsersCount env) w)) = ui w.
Proof.
  unfold Promise_all2, getUsers, getUsersCount.
  pose proof (request_keeps_ui env
                ("/users?first=" +:+ string_of_Z first +:+ "&max=" +:+ string_of_Z max)
                no_options w) as H1.
  destruct (_request env _ no_options w) as [[a|e] w1]; simpl in *.
  - pose proof (bind_ret_keeps_ui (_request env "/users/count" no_options)
                  (fun count => if truthy count then parseInt count else Some 0%Z) w1)
      as H2.
    rewrite request_keeps_ui in H2.
    destruct ((let* count := _request env "/users/count" no_options in _) w1)
      as [[b|e] w2]; simpl in *; congruence.
  - pose proof (bind_ret_keeps_ui (_request env "/users/count" no_options)
                  (fun count => if truthy count then parseInt count else Some 0%Z) w1)
      as H2.
    rewrite request_keeps_ui in H2. congruence.
Qed.

(** X10. The table is refreshed only when both the page and the count have
    arrived: when the page fetch or the count fetch fails, [loadUsers]
    throws, the failure it throws is that of one of the two fetches (of the
    one that failed, when only one did), and the users, the total and the
    rest of the state are as they were. *)
Theorem loadUsers_keeps_the_table_when_a_fetch_fails env c w :
  let page_fetch := getUsers env (page c * pageSize c) (pageSize c) w in
  let count_fetch := getUsersCount env (snd page_fetch) in
  (exists e, fst page_fetch = Throw e) \/ (exists e, fst count_fetch = Throw e) ->
  (exists e,
     fst (loadUsers env c w) = Throw e /\
     (fst page_fetch = Throw e \/ fst count_fetch = Throw e)) /\
  ui (snd (loadUsers env c w)) = ui w.
Proof.
  intros page_fetch count_fetch Hfail.
  pose proof (page_and_count_keep_ui env (page c * pageSize c) (pageSize c) w) as Hui.
  unfold loadUsers, bind. unfold Promise_all2 in *.
  fold page_fetch in Hui |- *.
  destruct page_fetch as [[data|e1] w1] eqn:Hpage; simpl in *.
  - fold count_fetch in Hui |- *.
    destruct count_fetch as [[count|e2] w2] eqn:Hcount; simpl in *.
    + destruct Hfail as [[e He] | [e He]]; discriminate.
    + split; [|exact Hui]. exists e2. auto.
  - split; [|exact Hui]. exists e1. auto.
Qed.

Lemma loadUsers_keeps_the_table_when_a_fetch_fails_witness :
  let env := Demo.env_of
               (fun req =>
                  if String.eqb (url req) (Demo.base +:+ "/users/count")
                  then inr (Demo.reply 403 None "Forbidden" None)
                  else inr (Demo.json_reply (VArr [Demo.alice]))) in
  let c := Demo.blank in
  let w := Demo.world_of c in
  (exists e,
     fst (loadUsers env c w) = Throw e /\
     (fst (getUsers env 0 5 w) = Throw e \/
      fst (getUsersCount env (snd (getUsers env 0 5 w))) = Throw e)) /\
  ui (snd (loadUsers env c w)) = ui w.
Proof.
  intros env c w.
  apply (loadUsers_keeps_the_table_when_a_fetch_fails env c w).
  right. exists (Error access_denied_message). reflexivity.
Defined.

(** ** The calls of [loadUsers] *)

Section SendsSome.

Context {A B : Type}.

Lemma sends_some_of_sends (m : M A) expected :
  sends m expected -> More.sends_some m expected.
Proof.
  intros Hm w. destruct (Hm w) as (tail & Htr & [k ->] & _).
  exists tail. split; [exact Htr|]. apply sublist_inserts_r. reflexivity.
Qed.

Lemma sends_some_quiet (m : M A) :
  (forall w, trace (snd (m w)) = trace w) -> More.sends_some m [].
Proof.
  intros Hm w. exists []. rewrite app_nil_r. split; [apply Hm|reflexivity].
Qed.

Lemma sends_some_bind (m : M A) (k : A -> M B) e1 e2 :
  More.sends_some m e1 -> (forall a, More.sends_some (k a) e2) ->
  More.sends_some (bind m k) (e1 ++ e2).
Proof.
  intros Hm Hk w. unfold bind.
  destruct (Hm w) as (t1 & Htr1 & Hsub1).
  destruct (m w) as [[a|e] w1]; simpl in *.
  - destruct (Hk a w1) as (t2 & Htr2 & Hsub2).
    exists (t1 ++ t2). rewrite Htr2, Htr1, app_assoc, calls_app.
    split; [reflexivity|]. apply sublist_app; assumption.
  - exists t1. split; [exact Htr1|]. apply sublist_inserts_r. exact Hsub1.
Qed.

Lemma sends_some_bind_quiet (m : M A) (k : A -> M B) expected :
  More.sends_some m [] -> (forall a, More.sends_some (k a) expected) ->
  More.sends_some (bind m k) expected.
Proof. intros Hm Hk. apply (sends_some_bind m k [] expected Hm Hk). Qed.

Lemma sends_some_try_catch (m : M A) (h : exn -> M A) expected :
  More.sends_some m expected -> (forall e, More.sends_some (h e) []) ->
  More.sends_some (try_catch m h) expected.
Proof.
  intros Hm Hh w. unfold try_catch.
  destruct (Hm w) as (t1 & Htr1 & Hsub1).
  destruct (m w) as [[a|e] w1]; simpl in *.
  - exists t1. split; assumption.
  - destruct (Hh e w1) as (t2 & Htr2 & Hsub2).
    exists (t1 ++ t2). rewrite Htr2, Htr1, app_assoc, calls_app.
    split; [reflexivity|].
    rewrite <- (app_nil_r expected). apply sublist_app; assumption.
Qed.

Lemma sends_some_Promise_all2 (ma : M A) (mb : M B) e1 e2 :
  More.sends_some ma e1 -> More.sends_some mb e2 ->
  More.sends_some (Promise_all2 ma mb) (e1 ++ e2).
Proof.
  intros Ha Hb w. unfold Promise_all2.
  destruct (Ha w) as (t1 & Htr1 & Hsub1).
  destruct (ma w) as [[a|e] w1]; simpl in *;
    destruct (Hb w1) as (t2 & Htr2 & Hsub2);
    exists (t1 ++ t2); rewrite app_assoc, calls_app, <- Htr1;
    (split; [|apply sublist_app; assumption]).
  - destruct (mb w1) as [[b|e] w2]; exact Htr2.
  - exact Htr2.
Qed.

End SendsSome.

Lemma sends_some_lift {A} (r : result A) : More.sends_some (lift r) [].
Proof. apply sends_some_quiet. reflexivity. Qed.

Lemma sends_some_bind_lift {A B} (r : result A) (k : A -> M B) expected :
  (forall a, r = Ok a -> More.sends_some (k a) expected) ->
  More.sends_some (bind (lift r) k) expected.
Proof.
  intros Hk. destruct r as [a|e].
  - apply (Hk a eq_refl).
  - intros w. exists []. rewrite app_nil_r. split; [reflexivity|].
    apply sublist_nil_l.
Qed.

Lemma sends_some_ret {A} (a : A) : More.sends_some (ret a) [].
Proof. apply sends_some_quiet. reflexivity. Qed.

Lemma sends_some_set_ui f : More.sends_some (set_ui f) [].
Proof. apply sends_some_quiet. reflexivity. Qed.

Lemma sends_some_warn message e : More.sends_some (log (ConsoleWarn message e)) [].
Proof.
  intros w. exists [ConsoleWarn message e]. split; reflexivity.
Qed.

Lemma sends_some_Promise_all {A B} (f : B -> M A) (call : B -> option string * string) l :
  (forall x, More.sends_some (f x) [call x]) ->
  More.sends_some (Promise_all (map f l)) (map call l).
Proof.
  intros Hf. induction l as [|x l IH]; [apply sends_some_ret|].
  intros w. simpl.
  destruct (Hf x w) as (t1 & Htr1 & Hsub1).
  destruct (f x w) as [[a|e] w1]; simpl in *;
    destruct (IH w1) as (t2 & Htr2 & Hsub2);
    exists (t1 ++ t2); rewrite app_assoc, calls_app, <- Htr1;
    (split; [|change (call x :: map call l) with ([call x] ++ map call l);
              apply sublist_app; assumption]).
  - destruct (Promise_all (map f l) w1) as [[b|e] w2]; exact Htr2.
  - exact Htr2.
Qed.

Lemma sends_some_enrich env user :
  More.sends_some (enrich env user) [More.role_call env user].
Proof.
  unfold enrich. apply sends_some_try_catch.
  - apply sends_some_bind_lift. intros id Hid.
    unfold More.role_call, More.id_text. rewrite Hid.
    rewrite <- (app_nil_r [_]).
    apply sends_some_bind.
    + unfold getUserRealmRoles. rewrite <- (app_nil_r [_]).
      apply sends_some_bind; [|intros roles; apply sends_some_ret].
      apply sends_some_of_sends. apply (sends_request env _ no_options).
    + intros roles.
      apply sends_some_bind_quiet; [apply sends_some_lift|]. intros rs.
      apply sends_some_bind_quiet; [apply sends_some_lift|]. intros names.
      apply sends_some_ret.
  - intros e. apply sends_some_bind_quiet; [apply sends_some_lift|]. intros uname.
    apply sends_some_bind_quiet; [apply sends_some_warn|]. intros _.
    apply sends_some_ret.
Qed.

Lemma sends_some_page_and_count env first max :
  More.sends_some (Promise_all2 (getUsers env first max) (getUsersCount env))
    [(None, baseUrl env +:+ "/users?first=" +:+ string_of_Z first
              +:+ "&max=" +:+ string_of_Z max);
     (None, baseUrl env +:+ "/users/count")].
Proof.
  apply (sends_some_Promise_all2 _ _ [_] [_]).
  - apply sends_some_of_sends. apply (sends_request env _ no_options).
  - unfold getUsersCount. rewrite <- (app_nil_r [_]).
    apply sends_some_bind; [|intros count; apply sends_some_ret].
    apply sends_some_of_sends. apply (sends_request env _ no_options).
Qed.

Lemma sends_some_new_events {A} (m : M A) expected w :
  More.sends_some m expected -> calls (new_events m w) `sublist_of` expected.
Proof.
  intros Hm. destruct (Hm w) as (tail & Htr & Hsub).
  unfold new_events. rewrite Htr, drop_app_length. exact Hsub.
Qed.

Lemma loadUsers_calls_in_model_order env c w :
  calls (new_events (loadUsers env c) w) `sublist_of`
    [(None, baseUrl env +:+ "/users?first=" +:+ string_of_Z (page c * pageSize c)
              +:+ "&max=" +:+ string_of_Z (pageSize c));
     (None, baseUrl env +:+ "/users/count")]
    ++ map (More.role_call env) (More.page_of env c w).
Proof.
  pose proof (sends_some_page_and_count env (page c * pageSize c) (pageSize c) w)
    as (t0 & Htr0 & Hsub0).
  set (first_calls := [_; _]) in *. clearbody first_calls.
  unfold new_events, loadUsers, bind, More.page_of.
  destruct (Promise_all2 _ _ w) as [[[data count]|e] w0]; simpl in Htr0.
  - destruct data as [| | | | |items|]; simpl;
      try (rewrite Htr0, drop_app_length, app_nil_r; exact Hsub0).
    match goal with
    | |- context [Promise_all (map (enrich env) items) ?w1] =>
        pose proof (sends_some_Promise_all (enrich env) (More.role_call env) items
                      (sends_some_enrich env) w1) as (t1 & Htr1 & Hsub1);
        destruct (Promise_all (map (enrich env) items) w1) as [[us|e] w2]
    end; simpl in *; rewrite Htr1, Htr0, <- app_assoc, drop_app_length, calls_app;
      apply sublist_app; assumption.
  - simpl. rewrite Htr0, drop_app_length. apply sublist_inserts_r. exact Hsub0.
Qed.

(** X11. Loading a page costs at most the page fetch, the count fetch and
    one role fetch for each user of the page: counted with their
    multiplicity and whatever their order, the calls of [loadUsers] are
    among these; none is sent twice, no other is sent, and no role is
    fetched when the page did not arrive as an array. The page numbers are
    safe integers. *)
Theorem loadUsers_sends_at_most_one_role_fetch_per_user env c w :
  More.safe_integer (page c * pageSize c) ->
  More.safe_integer (pageSize c) ->
  calls (new_events (loadUsers env c) w) ⊆+
    [(None, baseUrl env +:+ "/users?first=" +:+ string_of_Z (page c * pageSize c)
              +:+ "&max=" +:+ string_of_Z (pageSize c));
     (None, baseUrl env +:+ "/users/count")]
    ++ map (More.role_call env) (More.page_of env c w).
Proof.
  intros _ _. apply sublist_submseteq. apply loadUsers_calls_in_model_order.
Qed.

Lemma loadUsers_sends_at_most_one_role_fetch_per_user_witness :
  let env := Demo.env_of Demo.directory in
  let w := Demo.world_of Demo.blank in
  calls (new_events (loadUsers env Demo.blank) w) ⊆+
    [(None, Demo.base +:+ "/users?first=0&max=5");
     (None, Demo.base +:+ "/users/count");
     (None, Demo.base +:+ "/users/u1/role-mappings/realm");
     (None, Demo.base +:+ "/users/u2/role-mappings/realm")].
Proof.
  intros env w.
  apply (loadUsers_sends_at_most_one_role_fetch_per_user env Demo.blank w);
    unfold More.safe_integer; simpl; lia.
Defined.

(** ** The calls of [performUpdate] *)

Lemma sends_some_weaken {A} (m : M A) e e' :
  More.sends_some m e -> e `sublist_of` e' -> More.sends_some m e'.
Proof.
  intros Hm Hsub w. destruct (Hm w) as (tail & Htr & Htail).
  exists tail. split; [exact Htr|]. etransitivity; eassumption.
Qed.

Lemma sends_some_alert message : More.sends_some (log (Alert message)) [].
Proof. intros w. exists [Alert message]. split; reflexivity. Qed.

Lemma sends_some_step (u : value) (b : bool) (call : value -> M value)
    (expected : option string * string) :
  (forall id, get u "id" = Ok id -> More.sends_some (call id) [expected]) ->
  More.sends_some
    (if b then
       let* id := lift (get u "id") in
       let* _ := call id in
       ret tt
     else ret tt) [expected].
Proof.
  intros Hcall. destruct b.
  - apply sends_some_bind_lift. intros id Hid.
    rewrite <- (app_nil_r [_]).
    apply sends_some_bind; [apply Hcall; exact Hid|]. intros _.
    apply sends_some_ret.
  - apply (sends_some_weaken _ []); [apply sends_some_ret|apply sublist_nil_l].
Qed.

Lemma sends_some_performUpdate env c :
  More.sends_some (performUpdate env c) (More.update_calls env (editingUser c)).
Proof.
  unfold performUpdate.
  destruct (negb (truthy (editingUser c))).
  { apply (sends_some_weaken _ []); [apply sends_some_ret|apply sublist_nil_l]. }
  change (More.update_calls env (editingUser c))
    with ([(Some "PUT", baseUrl env +:+ "/users/" +:+ More.id_text (editingUser c)
                        +:+ "/reset-password")]
          ++ ([(Some "POST", baseUrl env +:+ "/users/" +:+ More.id_text (editingUser c)
                             +:+ "/role-mappings/realm")]
              ++ ([(Some "DELETE", baseUrl env +:+ "/users/"
                                   +:+ More.id_text (editingUser c)
                                   +:+ "/role-mappings/realm")] ++ []))).
  apply sends_some_bind.
  { apply sends_some_step. intros id Hid.
    unfold More.id_text. rewrite Hid.
    apply sends_some_of_sends. unfold resetPassword.
    match goal with
    | |- sends (_request env ?ep ?opts) _ => apply (sends_request env ep opts)
    end. }
  intros _. apply sends_some_bind_lift. intros realmRoles _.
  apply sends_some_bind_lift. intros currentRoleNames _.
  apply sends_some_bind.
  { destruct (0 <? length _)%nat.
    - apply sends_some_bind_lift. intros rolesToAdd _.
      apply sends_some_bind_lift. intros id Hid.
      rewrite <- (app_nil_r [_]).
      apply sends_some_bind; [|intros _; apply sends_some_ret].
      unfold More.id_text. rewrite Hid.
      apply sends_some_of_sends. unfold addRealmRoleMappings.
      match goal with
      | |- sends (_request env ?ep ?opts) _ => apply (sends_request env ep opts)
      end.
    - apply (sends_some_weaken _ []); [apply sends_some_ret|apply sublist_nil_l]. }
  intros _. apply sends_some_bind.
  { destruct (0 <? length _)%nat.
    - apply sends_some_bind_lift. intros rolesToRemove _.
      destruct (0 <? length rolesToRemove)%nat.
      + apply sends_some_bind_lift. intros id Hid.
        rewrite <- (app_nil_r [_]).
        apply sends_some_bind; [|intros _; apply sends_some_ret].
        unfold More.id_text. rewrite Hid.
        apply sends_some_of_sends. unfold removeRealmRoleMappings.
        match goal with
        | |- sends (_request env ?ep ?opts) _ => apply (sends_request env ep opts)
        end.
      + apply (sends_some_weaken _ []); [apply sends_some_ret|apply sublist_nil_l].
    - apply (sends_some_weaken _ []); [apply sends_some_ret|apply sublist_nil_l]. }
  intros _. apply sends_some_alert.
Qed.

(** X12. Whatever the form holds, [performUpdate] sends at most three calls
    and in a fixed order: the password reset, then the grant, then the
    revoke, each at most once and each for the user being edited. *)
Theorem performUpdate_calls_in_order env c w :
  calls (new_events (performUpdate env c) w)
    `sublist_of` More.update_calls env (editingUser c).
Proof. apply sends_some_new_events. apply sends_some_performUpdate. Qed.

(** ** The edit form: [openEditModal], [toggleRole] *)

Lemma assign_true_lookup m r k :
  Screen.assign_true m r !! k = Some true
  <-> m !! k = Some true \/ (to_string r = k /\ k <> "__proto__").
Proof.
  unfold Screen.assign_true.
  destruct (String.eqb (to_string r) "__proto__") eqn:Hp.
  - apply String.eqb_eq in Hp. split; [auto|].
    intros [H | [H1 H2]]; [exact H|]. congruence.
  - apply String.eqb_neq in Hp.
    destruct (decide (to_string r = k)) as [<- | Hne].
    + rewrite lookup_insert_eq. split; [auto|reflexivity].
    + rewrite lookup_insert_ne by exact Hne. split; [auto|].
      intros [H | [H _]]; [exact H|contradiction].
Qed.

Lemma roleMap_lookup roles m k :
  fold_left Screen.assign_true roles m !! k = Some true
  <-> m !! k = Some true
      \/ (k <> "__proto__" /\ exists r, r ∈ roles /\ to_string r = k).
Proof.
  revert m. induction roles as [|r roles IH]; intros m; simpl.
  - split; [auto|]. intros [H | (_ & r & Hin & _)]; [exact H|inversion Hin].
  - rewrite IH, assign_true_lookup. split.
    + intros [[H | [H1 H2]] | (Hk & r' & Hin & Hr')].
      * left. exact H.
      * right. split; [exact H2|]. exists r. split; [apply list_elem_of_here|exact H1].
      * right. split; [exact Hk|]. exists r'.
        split; [apply list_elem_of_further; exact Hin|exact Hr'].
    + intros [H | (Hk & r' & Hin & Hr')]; [auto|].
      apply elem_of_cons in Hin as [-> | Hin]; [auto|].
      right. split; [exact Hk|]. eauto.
Qed.

Lemma preselected roles n :
  n ∈ selected_names (Screen.roleMap_of roles)
  <-> n <> "__proto__" /\ exists r, r ∈ roles /\ to_string r = n.
Proof.
  rewrite elem_of_selected_names. unfold Screen.roleMap_of.
  rewrite roleMap_lookup, lookup_empty. split.
  - intros [H | H]; [discriminate|exact H].
  - auto.
Qed.


(** X13. [openEditModal] opens the edit form of the user with a blank
    password and, preselected, exactly the role names of the user read as
    text; a role named [__proto__] is the one name that is never
    preselected. *)
Theorem openEditModal_preselects_the_roles_of_the_user user roles s c :
  get user "realmRoles" = Ok (VArr roles) ->
  exists s' c',
    Screen.openEditModal user s c = Ok (s', c') /\
    editingUser c' = user /\
    Screen.modalMode s' = Screen.Edit /\
    Screen.showModal s' = true /\
    password (formData c') = EmptyString /\
    forall n,
      n ∈ selected_names (selectedRoles (formData c'))
      <-> n <> "__proto__" /\ exists r, r ∈ roles /\ to_string r = n.
Proof.
  intros Hroles.
  assert (nullish user = false) as Hnn by (eapply get_ok_nullish; exact Hroles).
  destruct (get_total user "username" Hnn) as [uname Huname].
  destruct (get_total user "email" Hnn) as [mail Hmail].
  unfold Screen.openEditModal. rewrite Hroles, Huname, Hmail. simpl.
  eexists _, _. split; [reflexivity|]. simpl.
  repeat (split; [reflexivity|]). intros n. apply preselected.
Qed.

Lemma openEditModal_preselects_the_roles_of_the_user_witness :
  let user := with_realmRoles Demo.alice [VStr "admin"; VStr "__proto__"] in
  let s := {| Screen.loading := false; Screen.error := VNull;
              Screen.showModal := false; Screen.modalMode := Screen.Create;
              Screen.console_errors := [] |} in
  exists s' c',
    Screen.openEditModal user s Demo.blank = Ok (s', c') /\
    ("admin" ∈ selected_names (selectedRoles (formData c'))) /\
    ("__proto__" ∉ selected_names (selectedRoles (formData c'))).
Proof.
  intros user s.
  destruct (openEditModal_preselects_the_roles_of_the_user
              user [VStr "admin"; VStr "__proto__"] s Demo.blank eq_refl)
    as (s' & c' & Hopen & _ & _ & _ & _ & Hsel).
  exists s', c'. split; [exact Hopen|]. split.
  - apply Hsel. split; [discriminate|]. exists (VStr "admin").
    split; [apply list_elem_of_here|reflexivity].
  - intros H. apply Hsel in H as [H _]. apply H. reflexivity.
Defined.




(** X15. A click on a role flips that role and no other: after [toggleRole]
    the role is selected exactly when it was not, and every other name is
    selected exactly when it was. The names of [Object.prototype] are
    apart: an absent one reads as set. *)
Theorem toggleRole_flips_one_name roleName fd n :
  to_string roleName ∉ Screen.Object_prototype ->
  n ∈ selected_names (selectedRoles (Screen.toggleRole roleName fd))
  <-> (n = to_string roleName /\ n ∉ selected_names (selectedRoles fd))
      \/ (n <> to_string roleName /\ n ∈ selected_names (selectedRoles fd)).
Proof.
  intros Hproto. rewrite !elem_of_selected_names.
  unfold Screen.toggleRole, Screen.read_selected. simpl.
  destruct (decide (n = to_string roleName)) as [-> | Hne].
  - rewrite lookup_insert_eq.
    destruct (selectedRoles fd !! to_string roleName) as [[]|] eqn:Hk; simpl.
    + split; [discriminate|]. intros [[_ H] | [H _]]; congruence.
    + split; [|reflexivity]. intros _. left. split; [reflexivity|discriminate].
    + rewrite bool_decide_eq_false_2 by exact Hproto. simpl.
      split; [|reflexivity]. intros _. left. split; [reflexivity|discriminate].
  - rewrite lookup_insert_ne by congruence. split.
    + intros H. right. split; [exact Hne|]. exact H.
    + intros [[H _] | [_ H]]; [contradiction|exact H].
Qed.

Lemma toggleRole_flips_one_name_witness :
  "doctor" ∈ selected_names
               (selectedRoles (Screen.toggleRole (VStr "doctor") Demo.no_form)).
Proof.
  apply (toggleRole_flips_one_name (VStr "doctor") Demo.no_form "doctor").
  - intros H. repeat (apply elem_of_cons in H as [H | H]; [discriminate|]).
    inversion H.
  - left. split; [reflexivity|]. intros H.
    apply elem_of_selected_names in H. discriminate.
Defined.

(** ** [loadRoles] *)

Lemma elem_of_insert_sorted {A} (cmp : A -> A -> Z) x l y :
  y ∈ Screen.insert_sorted cmp x l <-> y = x \/ y ∈ l.
Proof.
  induction l as [|z l IH]; simpl.
  - rewrite elem_of_cons. reflexivity.
  - destruct (cmp z x <=? 0)%Z.
    + rewrite !elem_of_cons, IH. tauto.
    + rewrite !elem_of_cons. tauto.
Qed.

Lemma elem_of_sort_with {A} (cmp : A -> A -> Z) l y :
  y ∈ Screen.sort_with cmp l <-> y ∈ l.
Proof.
  unfold Screen.sort_with.
  assert (forall acc, y ∈ fold_left (fun sorted x => Screen.insert_sorted cmp x sorted) l acc
                      <-> y ∈ acc \/ y ∈ l) as H.
  { induction l as [|x l IH]; intros acc; simpl.
    - split; [auto|]. intros [H | H]; [exact H|inversion H].
    - rewrite IH, elem_of_insert_sorted, elem_of_cons. tauto. }
  rewrite H. split; [|auto]. intros [Hn | Hy]; [inversion Hn|exact Hy].
Qed.

(** X16. [loadRoles] sets the catalog to the roles of the answer that are
    named admin, doctor or doctoradmin, and to nothing else: whatever the
    collation, a role is in the catalog exactly when the server sent it and
    its name is one of the three. *)
Theorem loadRoles_keeps_the_allowed_roles env localeCompare w items w1 :
  getRealmRoles env w = (Ok (VArr items), w1) ->
  Forall (fun r => nullish r = false) items ->
  fst (Screen.loadRoles env localeCompare w) = Ok tt /\
  forall r,
    r ∈ availableRoles (ui (snd (Screen.loadRoles env localeCompare w)))
    <-> r ∈ items /\
        exists n, get r "name" = Ok (VStr n) /\ n ∈ Screen.allowedRoles.
Proof.
  intros Hroles Hitems.
  destruct (filter_result_total (name_in (map VStr Screen.allowedRoles)) items)
    as [kept Hkept].
  { eapply Forall_impl; [exact Hitems|]. intros r Hr. apply name_in_total. exact Hr. }
  unfold Screen.loadRoles, bind, lift, set_ui. rewrite Hroles.
  unfold as_array. cbv beta iota. rewrite Hkept. cbv beta iota.
  split; [reflexivity|]. intros r. cbn [snd ui availableRoles Screen.setAvailableRoles].
  rewrite elem_of_sort_with, (filter_result_ok _ _ _ r Hkept), name_in_strings.
  reflexivity.
Qed.

Lemma loadRoles_keeps_the_allowed_roles_witness :
  let env := Demo.env_of
               (fun _ => inr (Demo.json_reply
                                (VArr [Demo.role "r9" "offline_access";
                                       Demo.role "r2" "doctor";
                                       Demo.role "r1" "admin"]))) in
  let w := Demo.world_of Demo.blank in
  let byte_order a b :=
    match String.compare a b with Lt => (-1)%Z | Eq => 0%Z | Gt => 1%Z end in
  Demo.role "r1" "admin"
  ∈ availableRoles (ui (snd (Screen.loadRoles env byte_order w))).
Proof.
  intros env w byte_order.
  apply (proj2 (loadRoles_keeps_the_allowed_roles env byte_order w
                  [Demo.role "r9" "offline_access"; Demo.role "r2" "doctor";
                   Demo.role "r1" "admin"]
                  (snd (getRealmRoles env w)) eq_refl
                  ltac:(repeat constructor))).
  split.
  - do 2 apply list_elem_of_further. apply list_elem_of_here.
  - exists "admin". split; [reflexivity|apply list_elem_of_here].
Defined.

(** ** [loadAllData] and [handleSave] *)

Lemma loadUsers_no_token env c w :
  no_token (token (keycloak w)) = true ->
  loadUsers env c w = (Throw (Error "No active token"), w).
Proof.
  intros Htok.
  unfold loadUsers, bind, Promise_all2, getUsers, getUsersCount, bind.
  rewrite !(request_no_token env _ no_options w Htok). reflexivity.
Qed.

Lemma loadRoles_no_token env localeCompare w :
  no_token (token (keycloak w)) = true ->
  Screen.loadRoles env localeCompare w = (Throw (Error "No active token"), w).
Proof.
  intros Htok. unfold Screen.loadRoles, bind, getRealmRoles.
  rewrite (request_no_token env _ no_options w Htok). reflexivity.
Qed.

(** X17. Without a token the initial load reaches nothing outside: no
    refresh, no HTTP call, the table and the catalog as they were. The
    handler returns with the banner "No active token", the error on the
    console and the spinner off. *)
Theorem loadAllData_without_token env localeCompare engine_message c s w :
  no_token (token (keycloak w)) = true ->
  Screen.loadAllData env localeCompare engine_message c s w
  = (Ok tt,
     {| Screen.loading := false;
        Screen.error := VStr "No active token";
        Screen.showModal := Screen.showModal s;
        Screen.modalMode := Screen.modalMode s;
        Screen.console_errors :=
          Screen.console_errors s ++ [Error "No active token"] |},
     w).
Proof.
  intros Htok. unfold Screen.loadAllData, Promise_all2.
  rewrite (loadRoles_no_token env localeCompare w Htok).
  rewrite (loadUsers_no_token env c w Htok). reflexivity.
Qed.

Lemma loadAllData_without_token_witness :
  let env := Demo.env_of Demo.directory in
  let w := {| keycloak := {| token := None; expires_in := 0 |};
              trace := []; ui := Demo.blank |} in
  let s := {| Screen.loading := false; Screen.error := VStr "stale";
              Screen.showModal := false; Screen.modalMode := Screen.Create;
              Screen.console_errors := [] |} in
  Screen.loadAllData env (fun _ _ => 0%Z) (fun _ => EmptyString) Demo.blank s w
  = (Ok tt,
     {| Screen.loading := false;
        Screen.error := VStr "No active token";
        Screen.showModal := false;
        Screen.modalMode := Screen.Create;
        Screen.console_errors := [Error "No active token"] |},
     w).
Proof.
  intros env w s.
  apply (loadAllData_without_token env (fun _ _ => 0%Z) (fun _ => EmptyString)
           Demo.blank s w).
  reflexivity.
Defined.

(** X18. When the save itself fails, [handleSave] stops there: the list is
    not reloaded (the world is the one the save left), the modal stays as
    it was, and the banner names the mode and the message of the failure. *)
Theorem handleSave_failure_keeps_the_modal env engine_message c s w e m :
  fst (More.save_step env (Screen.modalMode s) c w) = Throw e ->
  Screen.message_of engine_message e = Ok m ->
  Screen.handleSave env engine_message c s w
  = (Ok tt,
     {| Screen.loading := false;
        Screen.error :=
          VStr ("Failed to " +:+ Screen.mode_text (Screen.modalMode s)
                +:+ " user: " +:+ to_string m);
        Screen.showModal := Screen.showModal s;
        Screen.modalMode := Screen.modalMode s;
        Screen.console_errors := Screen.console_errors s |},
     snd (More.save_step env (Screen.modalMode s) c w)).
Proof.
  intros Hfail Hmsg. unfold Screen.handleSave, More.save_step in *.
  destruct s as [busy banner shown mode logged]. simpl in *. destruct mode.
  - destruct (performCreate env c w) as [[[]|e'] w1]; simpl in *; [discriminate|].
    inversion Hfail; subst e'. rewrite Hmsg. reflexivity.
  - destruct (performUpdate env c w) as [[[]|e'] w1]; simpl in *; [discriminate|].
    inversion Hfail; subst e'. rewrite Hmsg. reflexivity.
Qed.

Lemma handleSave_failure_keeps_the_modal_witness :
  let env := Demo.env_of (fun _ => inr (Demo.reply 409 None "exists" None)) in
  let c := Demo.editing VNull (Demo.form_of "alice" "pw" ∅) in
  let w := Demo.world_of c in
  let s := {| Screen.loading := false; Screen.error := VNull;
              Screen.showModal := true; Screen.modalMode := Screen.Create;
              Screen.console_errors := [] |} in
  Screen.handleSave env (fun _ => EmptyString) c s w
  = (Ok tt,
     {| Screen.loading := false;
        Screen.error :=
          VStr "Failed to create user: Conflict: User or resource already exists.";
        Screen.showModal := true;
        Screen.modalMode := Screen.Create;
        Screen.console_errors := [] |},
     snd (performCreate env c w)).
Proof.
  intros env c w s.
  apply (handleSave_failure_keeps_the_modal env (fun _ => EmptyString) c s w
           (Error conflict_message) (VStr conflict_message)); reflexivity.
Defined.

(** X19. The reload is inside the same [try]: when the save succeeded and
    the reload of the list fails, the modal is closed and the banner still
    reads "Failed to create user" or "Failed to edit user". *)
Theorem handleSave_reports_a_failed_reload_as_a_failed_save
    env engine_message c s w w1 e m :
  More.save_step env (Screen.modalMode s) c w = (Ok tt, w1) ->
  fst (loadUsers env c w1) = Throw e ->
  Screen.message_of engine_message e = Ok m ->
  Screen.handleSave env engine_message c s w
  = (Ok tt,
     {| Screen.loading := false;
        Screen.error :=
          VStr ("Failed to " +:+ Screen.mode_text (Screen.modalMode s)
                +:+ " user: " +:+ to_string m);
        Screen.showModal := false;
        Screen.modalMode := Screen.modalMode s;
        Screen.console_errors := Screen.console_errors s |},
     snd (loadUsers env c w1)).
Proof.
  intros Hsave Hfail Hmsg. unfold Screen.handleSave, More.save_step in *.
  destruct s as [busy banner shown mode logged]. simpl in *.
  destruct mode; rewrite Hsave;
    destruct (loadUsers env c w1) as [[[]|e'] w2]; simpl in *;
    try discriminate; inversion Hfail; subst e'; rewrite Hmsg; reflexivity.
Qed.

Lemma handleSave_reports_a_failed_reload_as_a_failed_save_witness :
  let env := Demo.env_of (fun _ => inr (Demo.reply 500 None "boom" None)) in
  let c := Demo.editing (with_realmRoles Demo.alice []) (Demo.form_of "alice" "" ∅) in
  let w := Demo.world_of c in
  let s := {| Screen.loading := false; Screen.error := VNull;
              Screen.showModal := true; Screen.modalMode := Screen.Edit;
              Screen.console_errors := [] |} in
  snd (fst (Screen.handleSave env (fun _ => EmptyString) c s w))
  = {| Screen.loading := false;
       Screen.error := VStr "Failed to edit user: API Error 500: boom";
       Screen.showModal := false;
       Screen.modalMode := Screen.Edit;
       Screen.console_errors := [] |}.
Proof.
  intros env c w s.
  rewrite (handleSave_reports_a_failed_reload_as_a_failed_save
             env (fun _ => EmptyString) c s w
             (snd (performUpdate env c w))
             (Error "API Error 500: boom") (VStr "API Error 500: boom")
             eq_refl eq_refl eq_refl).
  reflexivity.
Defined.

(** X20. The spinner never stays on: whatever the server does, and also
    when the handler itself throws while it reports a failure, the three
    handlers end with [loading] false. *)
Theorem handlers_always_stop_the_spinner env localeCompare engine_message c s v w :
  Screen.loading (snd (fst (Screen.loadAllData env localeCompare engine_message c s w)))
  = false /\
  Screen.loading (snd (fst (Screen.handleSave env engine_message c s w))) = false /\
  AuditView.loading (snd (fst (AuditView.loadEvents env engine_message v w))) = false.
Proof.
  split; [|split].
  - unfold Screen.loadAllData.
    destruct (Promise_all2 _ _ w) as [[?|err] w']; [reflexivity|].
    destruct (Screen.message_of engine_message err); reflexivity.
  - unfold Screen.handleSave.
    destruct (Screen.modalMode s).
    + destruct (performCreate env c w) as [[?|err] w1].
      * destruct (loadUsers env c w1) as [[?|err] w2]; [reflexivity|].
        destruct (Screen.message_of engine_message err); reflexivity.
      * destruct (Screen.message_of engine_message err); reflexivity.
    + destruct (performUpdate env c w) as [[?|err] w1].
      * destruct (loadUsers env c w1) as [[?|err] w2]; [reflexivity|].
        destruct (Screen.message_of engine_message err); reflexivity.
      * destruct (Screen.message_of engine_message err); reflexivity.
  - unfold AuditView.loadEvents.
    destruct (getEvents env _ _ _ w) as [[data|err] w']; [reflexivity|].
    destruct (Screen.message_of engine_message err) as [m|e]; [|reflexivity].
    destruct (AuditView.is_access_denied m) as [[]|e]; reflexivity.
Qed.

(** X21. A refresh that is rejected without a reason (or with [null]) is
    not reported: the [catch] of [loadAllData] throws on [err.message], so
    the handler itself fails with a [TypeError]; the banner stays clear, the
    rejection is on the console and the spinner is off. *)
Theorem loadAllData_fails_on_a_rejection_without_reason
    env localeCompare engine_message c s w reason :
  no_token (token (keycloak w)) = false ->
  updateToken env (trace w) 30 (keycloak w) = inl (Rejected reason) ->
  nullish reason = true ->
  let out := Screen.loadAllData env localeCompare engine_message c s w in
  fst (fst out) = Throw TypeError /\
  snd (fst out)
  = {| Screen.loading := false;
       Screen.error := VNull;
       Screen.showModal := Screen.showModal s;
       Screen.modalMode := Screen.modalMode s;
       Screen.console_errors := Screen.console_errors s ++ [Rejected reason] |}.
Proof.
  intros Htok Hupd Hreason out. subst out.
  assert (fst (Screen.loadRoles env localeCompare w) = Throw (Rejected reason))
    as Hroles.
  { unfold Screen.loadRoles, bind, getRealmRoles.
    unfold _request, bind, get_keycloak, keycloak_updateToken; simpl.
    rewrite Htok; simpl. rewrite Hupd. reflexivity. }
  unfold Screen.loadAllData, Promise_all2.
  destruct (Screen.loadRoles env localeCompare w) as [[?|e] w1]; simpl in Hroles;
    [discriminate|].
  inversion Hroles; subst e. simpl.
  destruct reason; try discriminate; simpl; split; reflexivity.
Qed.

Lemma loadAllData_fails_on_a_rejection_without_reason_witness :
  let env := {| authServerUrl := "http://127.0.0.1:8080";
                realm := "my-react-app";
                updateToken := fun _ _ _ => inl (Rejected VUndefined);
                serve := fun _ _ => (1%Z, inl TypeError);
                JSON_stringify := Demo.stringify |} in
  let s := {| Screen.loading := false; Screen.error := VNull;
              Screen.showModal := false; Screen.modalMode := Screen.Create;
              Screen.console_errors := [] |} in
  fst (fst (Screen.loadAllData env (fun _ _ => 0%Z) (fun _ => EmptyString)
              Demo.blank s (Demo.world_of Demo.blank)))
  = Throw TypeError.
Proof.
  intros env s.
  apply (loadAllData_fails_on_a_rejection_without_reason
           env (fun _ _ => 0%Z) (fun _ => EmptyString) Demo.blank s
           (Demo.world_of Demo.blank) VUndefined); reflexivity.
Defined.

(** ** The paging of the user table *)

Lemma click_keeps_the_settings c k :
  pageSize (More.click c k) = pageSize c /\
  totalUsers (More.click c k) = totalUsers c.
Proof.
  destruct k; simpl; unfold Screen.click_previous, Screen.click_next.
  - destruct (Screen.previous_disabled c); split; reflexivity.
  - destruct (Screen.next_disabled c); split; reflexivity.
Qed.

Lemma click_in_range c k total :
  totalUsers c = Some total ->
  (0 <= pageSize c)%Z ->
  (0 <= page c)%Z /\ (page c = 0%Z \/ (page c * pageSize c < total)%Z) ->
  (0 <= page (More.click c k))%Z /\
  (page (More.click c k) = 0%Z
   \/ (page (More.click c k) * pageSize (More.click c k) < total)%Z).
Proof.
  intros Htotal Hsize [Hpos Hrange].
  destruct k; simpl; unfold Screen.click_previous, Screen.click_next,
    Screen.previous_disabled, Screen.next_disabled; rewrite ?Htotal.
  - destruct (page c =? 0)%Z eqn:Hzero; [auto|].
    apply Z.eqb_neq in Hzero. simpl.
    destruct Hrange as [? | Hrange]; [contradiction|].
    split; [lia|]. right. nia.
  - destruct (total <=? (page c + 1) * pageSize c)%Z eqn:Hlast; [auto|].
    apply Z.leb_gt in Hlast. simpl. split; [lia|]. right. exact Hlast.
Qed.

(** X22. The paging buttons keep the table in range: from the first page,
    or from any page that starts before the total, no sequence of clicks on
    Previous and Next reaches a negative page or a page that starts at or
    after the total. *)
Theorem paging_stays_in_range c total clicks :
  totalUsers c = Some total ->
  (0 <= pageSize c)%Z ->
  (0 <= page c)%Z ->
  page c = 0%Z \/ (page c * pageSize c < total)%Z ->
  let c' := fold_left More.click clicks c in
  (0 <= page c')%Z /\ (page c' = 0%Z \/ (page c' * pageSize c' < total)%Z).
Proof.
  intros Htotal Hsize Hpos Hrange. simpl. revert c Htotal Hsize Hpos Hrange.
  induction clicks as [|k clicks IH]; intros c Htotal Hsize Hpos Hrange; simpl;
    [auto|].
  destruct (click_in_range c k total Htotal Hsize (conj Hpos Hrange))
    as [Hpos' Hrange'].
  apply IH; [| |exact Hpos'|exact Hrange'].
  - rewrite (proj2 (click_keeps_the_settings c k)). exact Htotal.
  - rewrite (proj1 (click_keeps_the_settings c k)). exact Hsize.
Qed.

Lemma paging_stays_in_range_witness :
  let c := setTotalUsers (Some 12%Z) Demo.blank in
  let c' := fold_left More.click
              [More.Next; More.Next; More.Previous; More.Next; More.Next] c in
  (0 <= page c')%Z /\ (page c' = 0%Z \/ (page c' * pageSize c' < 12)%Z).
Proof.
  intros c.
  apply (paging_stays_in_range c 12
           [More.Next; More.Next; More.Previous; More.Next; More.Next]).
  - reflexivity.
  - simpl. lia.
  - simpl. lia.
  - left. reflexivity.
Defined.

(** X23. Previous undoes Next: when Next is enabled on a page that is not
    negative, a click on Next followed by a click on Previous gives back
    the state. *)
Theorem previous_undoes_next c :
  Screen.next_disabled c = false ->
  (0 <= page c)%Z ->
  Screen.click_previous (Screen.click_next c) = c.
Proof.
  intros Hnext Hpos. unfold Screen.click_next. rewrite Hnext.
  unfold Screen.click_previous, Screen.previous_disabled, Screen.setPage. simpl.
  destruct (page c + 1 =? 0)%Z eqn:Hzero; [apply Z.eqb_eq in Hzero; lia|].
  replace (Z.max 0 (page c + 1 - 1)) with (page c) by lia.
  destruct c; reflexivity.
Qed.

Lemma previous_undoes_next_witness :
  let c := setTotalUsers (Some 12%Z) Demo.blank in
  Screen.click_previous (Screen.click_next c) = c.
Proof.
  intros c. apply (previous_undoes_next c); [reflexivity|simpl; lia].
Defined.

(** ** [loadEvents] of the audit log *)

Lemma getEvents_is_request env first max types :
  getEvents env first max types
  = _request env
      ("/events?" +:+ URLSearchParams_toString
                        ([("first", string_of_Z first); ("max", string_of_Z max)]
                         ++ map (fun t => ("type", t)) types))
      no_options.
Proof. reflexivity. Qed.

(** X24. A 403 on the events endpoint puts the permission help in the
    banner of the audit log: the events shown stay as they were, the error
    goes to the console and the spinner is off. *)
Theorem loadEvents_explains_a_403 env engine_message s w resp :
  responds env w
    ("/events?" +:+ URLSearchParams_toString
                      ([("first", string_of_Z (AuditView.page s * AuditView.pageSize s));
                        ("max", string_of_Z (AuditView.pageSize s))]
                       ++ map (fun t => ("type", t)) default_event_types))
    no_options resp ->
  status resp = 403%Z ->
  let out := AuditView.loadEvents env engine_message s w in
  fst (fst out) = Ok tt /\
  snd (fst out)
  = {| AuditView.events := AuditView.events s;
       AuditView.page := AuditView.page s;
       AuditView.pageSize := AuditView.pageSize s;
       AuditView.loading := false;
       AuditView.error := AuditView.AccessDeniedHelp;
       AuditView.console_errors :=
         AuditView.console_errors s ++ [Error access_denied_message] |}.
Proof.
  intros (Htok & k' & dt & Hupd & Hsrv) Hstatus out. subst out.
  unfold AuditView.loadEvents. cbn [AuditView.page AuditView.pageSize
    AuditView.setError AuditView.setLoading].
  rewrite getEvents_is_request.
  rewrite (request_unfold env w _ no_options resp k' dt Htok Hupd Hsrv).
  unfold ok. rewrite Hstatus. simpl. split; reflexivity.
Qed.

Lemma loadEvents_explains_a_403_witness :
  let env := Demo.env_of (fun _ => inr (Demo.reply 403 None "Forbidden" None)) in
  let s := {| AuditView.events := VArr [VStr "old"]; AuditView.page := 2;
              AuditView.pageSize := 10; AuditView.loading := false;
              AuditView.error := AuditView.NoError;
              AuditView.console_errors := [] |} in
  AuditView.error
    (snd (fst (AuditView.loadEvents env (fun _ => EmptyString) s
                 (Demo.world_of Demo.blank))))
  = AuditView.AccessDeniedHelp.
Proof.
  intros env s.
  destruct (loadEvents_explains_a_403 env (fun _ => EmptyString) s
              (Demo.world_of Demo.blank)
              (Demo.reply 403 None "Forbidden" None)) as [_ ->].
  - split; [reflexivity|]. exists {| token := Some "fresh-token"; expires_in := 300 |}, 1%Z.
    split; reflexivity.
  - reflexivity.
  - reflexivity.
Defined.

Lemma form_encode_digits d :
  form_encode (NilEmpty.string_of_uint d) = NilEmpty.string_of_uint d.
Proof.
  induction d; [reflexivity|..];
    cbn [NilEmpty.string_of_uint form_encode]; rewrite IHd; reflexivity.
Qed.

Lemma form_encode_number n : form_encode (string_of_Z n) = string_of_Z n.
Proof.
  unfold string_of_Z, NilZero.string_of_int.
  destruct (Z.to_int n) as [d|d]; unfold NilZero.string_of_uint.
  - destruct d; try reflexivity;
      cbn [NilEmpty.string_of_uint form_encode]; rewrite form_encode_digits;
      reflexivity.
  - change (form_encode (String "-" ?s)) with (String "-" (form_encode s)).
    f_equal.
    destruct d; try reflexivity;
      cbn [NilEmpty.string_of_uint form_encode]; rewrite form_encode_digits;
      reflexivity.
Qed.

Lemma append_assoc (a b c : string) : (a +:+ b) +:+ c = a +:+ (b +:+ c).
Proof.
  induction a as [|x a IH]; [reflexivity|].
  change (String x ((a +:+ b) +:+ c) = String x (a +:+ (b +:+ c))).
  rewrite IH. reflexivity.
Qed.

(** X25. A page of the audit log is asked for by its numbers as they are:
    for an offset and a size that are safe integers, negative ones
    included, [getEvents] needs no escaping and sends the one call
    [/events?first=..&max=..&type=LOGIN&type=LOGOUT&type=LOGIN_ERROR]. *)
Theorem getEvents_sends_the_page_numbers_unescaped env first max :
  More.safe_integer first ->
  More.safe_integer max ->
  sends (getEvents env first max default_event_types)
    [(None,
      baseUrl env +:+ "/events?first=" +:+ string_of_Z first
      +:+ "&max=" +:+ string_of_Z max
      +:+ "&type=LOGIN&type=LOGOUT&type=LOGIN_ERROR")].
Proof.
  intros _ _.
  assert ("/events?" +:+ URLSearchParams_toString
                          ([("first", string_of_Z first); ("max", string_of_Z max)]
                           ++ map (fun t => ("type", t)) default_event_types)
          = "/events?first=" +:+ string_of_Z first
            +:+ "&max=" +:+ string_of_Z max
            +:+ "&type=LOGIN&type=LOGOUT&type=LOGIN_ERROR") as Hurl.
  { cbn [app map default_event_types URLSearchParams_toString].
    rewrite !form_encode_number.
    change (form_encode "first") with "first".
    change (form_encode "max") with "max".
    change (form_encode "type") with "type".
    change (form_encode "LOGIN") with "LOGIN".
    change (form_encode "LOGOUT") with "LOGOUT".
    change (form_encode "LOGIN_ERROR") with "LOGIN_ERROR".
    rewrite !append_assoc. reflexivity. }
  rewrite getEvents_is_request, Hurl.
  apply (sends_request env _ no_options).
Qed.

Lemma getEvents_sends_the_page_numbers_unescaped_witness :
  sends (getEvents (Demo.env_of Demo.directory) (-20) 10 default_event_types)
    [(None,
      Demo.base +:+ "/events?first=-20&max=10&type=LOGIN&type=LOGOUT&type=LOGIN_ERROR")].
Proof.
  apply (getEvents_sends_the_page_numbers_unescaped
           (Demo.env_of Demo.directory) (-20) 10);
    unfold More.safe_integer; lia.
Defined.

(** ** What [performCreate] sends *)

Lemma performCreate_payloads env c :
  emits (More.create_payload env c) (performCreate env c).
Proof.
  unfold performCreate. cbv zeta. fold (newUserData (formData c)).
  apply emits_bind.
  { unfold createUser. apply emits_request; try exact I.
    intros k. simpl. left. split; [reflexivity|]. left. reflexivity. }
  intros _. apply emits_bind.
  { unfold getUsers. apply emits_request; try exact I. intros k. exact I. }
  intros usersList. apply emits_bind_lift. intros items _.
  apply emits_bind_lift. intros createdUser _.
  destruct (negb (truthy createdUser)); [apply emits_throw|].
  apply emits_bind.
  { destruct (truthy (VStr (password (formData c)))); [|apply emits_ret].
    apply emits_bind_lift. intros id _.
    apply emits_bind; [|intros _; apply emits_ret].
    unfold resetPassword. apply emits_request; try exact I.
    intros k. simpl. right. split; reflexivity. }
  intros _. apply emits_bind; [|intros _; apply emits_log; exact I].
  destruct (0 <? length _)%nat; [|apply emits_ret].
  apply emits_bind_lift. intros roles Hroles.
  apply emits_bind_lift. intros id _.
  apply emits_bind; [|intros _; apply emits_ret].
  unfold addRealmRoleMappings. apply emits_request; try exact I.
  intros k. simpl. left. split; [reflexivity|]. right.
  exists roles. split; [reflexivity|]. intros r.
  rewrite (filter_result_ok _ _ _ r Hroles), name_in_strings. reflexivity.
Qed.

(** X26. [performCreate] sends what the form holds and nothing else: a POST
    carries the new user or exactly the catalog roles whose name is ticked,
    a PUT carries the password as typed and not temporary, and no request
    has another method than GET, POST and PUT. *)
Theorem performCreate_sends_the_form env c w :
  Forall (More.create_payload env c) (new_events (performCreate env c) w).
Proof. apply emits_new_events. apply performCreate_payloads. Qed.

Lemma nothing_selected : selected_names (∅ : gmap string bool) = [].
Proof.
  apply elem_of_nil_inv. intros n Hn.
  apply elem_of_selected_names in Hn. rewrite lookup_empty in Hn. discriminate.
Qed.

(** X27. A create form saved as [openCreateModal] left it asks for no
    password and no role: [performCreate] sends the create call and the
    re-query, in this order, and no third call. *)
Theorem fresh_create_form_sends_two_calls env s c :
  sends (performCreate env (snd (Screen.openCreateModal s c)))
    [(Some "POST", baseUrl env +:+ "/users");
     (None, baseUrl env +:+ "/users?first=0&max=10")].
Proof.
  unfold performCreate. cbn [snd Screen.openCreateModal formData
    Screen.setEditingUser Screen.setFormData username email password
    selectedRoles availableRoles].
  rewrite nothing_selected.
  change [(Some "POST", baseUrl env +:+ "/users");
          (None, baseUrl env +:+ "/users?first=0&max=10")]
    with ([(Some "POST", baseUrl env +:+ "/users")]
          ++ ([(None, baseUrl env +:+ "/users?first=0&max=10")] ++ [])).
  apply sends_bind.
  { unfold createUser.
    match goal with
    | |- sends (_request env ?ep ?opts) _ => apply (sends_request env ep opts)
    end. }
  intros _. apply sends_bind.
  { apply (sends_request env "/users?first=0&max=10" no_options). }
  intros usersList. apply sends_bind_lift. intros items _.
  apply sends_bind_lift. intros createdUser _.
  destruct (negb (truthy createdUser)); [apply sends_throw|].
  cbn [truthy String.eqb negb length Nat.ltb Nat.leb].
  apply (sends_bind _ _ [] []); [apply sends_ret|]. intros _.
  apply (sends_bind _ _ [] []); [apply sends_ret|]. intros _.
  apply sends_alert.
Qed.
